(** * EduMentor chat panel: a shallow embedding of [script.js]

    The script wires a text input, a send button and a scrolling chat
    window together.  [sendMessage] trims the input, appends a user bubble,
    scrolls, clears the input and schedules a one-shot timer whose callback
    appends the simulated assistant bubble.

    The browser is modelled by explicit state passing: the DOM pieces the
    script touches, a millisecond clock, and the table of pending timers. *)

From Stdlib Require Import NArith String Ascii.
From stdpp Require Import gmap list sorting.

Local Open Scope N_scope.

(** ** JavaScript strings

    A JavaScript string is a sequence of UTF-16 code units. *)

Abbreviation jsstring := (list N).

(** Code units of an ASCII literal. *)
Fixpoint lit (s : string) : jsstring :=
  match s with
  | EmptyString => []
  | String a r => N_of_ascii a :: lit r
  end.

(** The double quote, U+0022. *)
Definition dquote : N := 34.

(** ECMAScript [WhiteSpace] and [LineTerminator] code points: the code
    units that [String.prototype.trim] strips. *)
Definition isWhiteSpace (c : N) : bool :=
  (c =? 9) || (c =? 10) || (c =? 11) || (c =? 12) || (c =? 13)
  || (c =? 32) || (c =? 160) || (c =? 5760)
  || ((8192 <=? c) && (c <=? 8202))
  || (c =? 8232) || (c =? 8233) || (c =? 8239) || (c =? 8287)
  || (c =? 12288) || (c =? 65279).

Fixpoint trimStart (s : jsstring) : jsstring :=
  match s with
  | [] => []
  | c :: r => if isWhiteSpace c then trimStart r else s
  end.

Definition trimEnd (s : jsstring) : jsstring := rev (trimStart (rev s)).

(** [String.prototype.trim]. *)
Definition trim (s : jsstring) : jsstring := trimEnd (trimStart s).

(** ToBoolean on a string: only the empty string is falsy. *)
Definition truthy (s : jsstring) : bool :=
  match s with
  | [] => false
  | _ :: _ => true
  end.

(** ** DOM state *)

(** A [div] made by [document.createElement]: the two properties the
    script assigns.  [innerHTML] holds the markup as it was assigned. *)
Record Element := mkElement {
  className : jsstring;
  innerHTML : jsstring
}.

(** A pending [setTimeout] entry.  Every timer of the script runs the same
    arrow function, so the closure is represented by the variable it
    captured, [userText]. *)
Record Timer := mkTimer {
  due : N;
  userText : jsstring
}.

Record State := mkState {
  userInput_value : jsstring;
  chatWindow_children : list Element;
  chatWindow_scrollTop : N;
  now : N;
  timers : gmap N Timer;
  next_timer_id : N
}.

(** Layout is the browser's business: the height of the rendered children
    and the height of the viewport of the chat window are left abstract. *)
Class Layout := {
  contentHeight : list Element -> N;
  clientHeight : N
}.

Section Script.
Context `{Layout}.

(** [chatWindow.scrollHeight]: never smaller than the client height. *)
Definition scrollHeight (st : State) : N :=
  N.max clientHeight (contentHeight (chatWindow_children st)).

(** The largest scroll offset of the chat window. *)
Definition maxScrollTop (st : State) : N := scrollHeight st - clientHeight.

Definition appendChild (e : Element) (st : State) : State :=
  mkState (userInput_value st) (chatWindow_children st ++ [e])
          (chatWindow_scrollTop st) (now st) (timers st) (next_timer_id st).

(** Assigning [chatWindow.scrollTop]: the browser clamps the value to the
    scrollable range. *)
Definition set_scrollTop (v : N) (st : State) : State :=
  mkState (userInput_value st) (chatWindow_children st)
          (N.min v (maxScrollTop st)) (now st) (timers st) (next_timer_id st).

Definition set_value (v : jsstring) (st : State) : State :=
  mkState v (chatWindow_children st) (chatWindow_scrollTop st) (now st)
          (timers st) (next_timer_id st).

(** [setTimeout(callback, delay)]: a fresh handle, due [delay] ms from now. *)
Definition setTimeout (captured : jsstring) (delay : N) (st : State) : State :=
  mkState (userInput_value st) (chatWindow_children st)
          (chatWindow_scrollTop st) (now st)
          (<[next_timer_id st := mkTimer (now st + delay) captured]> (timers st))
          (N.succ (next_timer_id st)).

(** ** The script *)

Definition span_open : jsstring :=
  lit "<span class=" ++ [dquote] ++ lit "message-text" ++ [dquote] ++ lit ">".

Definition span_close : jsstring := lit "</span>".

(** The template literal of the user bubble. *)
Definition userMarkup (userText : jsstring) : jsstring :=
  span_open ++ userText ++ span_close.

(** The text of the simulated reply. *)
Definition aiReply (userText : jsstring) : jsstring :=
  lit "This is a simulated AI response to " ++ [dquote] ++ userText
  ++ [dquote] ++ lit ".".

(** The template literal of the assistant bubble. *)
Definition aiMarkup (userText : jsstring) : jsstring :=
  span_open ++ aiReply userText ++ span_close.

Definition userMessageDiv (userText : jsstring) : Element :=
  mkElement (lit "message user-message") (userMarkup userText).

Definition aiMessageDiv (userText : jsstring) : Element :=
  mkElement (lit "message ai-message") (aiMarkup userText).

(** The arrow function handed to [setTimeout]. *)
Definition timerCallback (userText : jsstring) (st : State) : State :=
  let st1 := appendChild (aiMessageDiv userText) st in
  set_scrollTop (scrollHeight st1) st1.

Definition sendMessage (st : State) : State :=
  let userText := trim (userInput_value st) in
  if truthy userText then
    let st1 := appendChild (userMessageDiv userText) st in
    let st2 := set_scrollTop (scrollHeight st1) st1 in
    let st3 := set_value [] st2 in
    setTimeout userText 1000 st3
  else st.

(** ** Event wiring

    The [DOMContentLoaded] handler looks up three nodes and registers two
    listeners; the page is assumed to contain the nodes. *)

Inductive Target := sendBtn | userInput | chatWindow.

#[export] Instance Target_eq_dec : EqDecision Target.
Proof. solve_decision. Defined.

(** An event object: its [type] and, for keyboard events, its [key]
    ([None] stands for [undefined]). *)
Record Event := mkEvent {
  ev_type : jsstring;
  ev_key : option jsstring
}.

Record Listener := mkListener {
  l_target : Target;
  l_type : jsstring;
  l_handler : Event -> State -> State
}.

(** [sendBtn.addEventListener('click', sendMessage)]: the event argument is
    ignored. *)
Definition onClick (event : Event) (st : State) : State := sendMessage st.

(** The arrow function registered for ['keypress'] on the input. *)
Definition onKeypress (event : Event) (st : State) : State :=
  if decide (ev_key event = Some (lit "Enter")) then sendMessage st else st.

(** The listeners in registration order. *)
Definition listeners : list Listener :=
  [ mkListener sendBtn (lit "click") onClick;
    mkListener userInput (lit "keypress") onKeypress ].

Definition listens (t : Target) (e : Event) (l : Listener) : bool :=
  bool_decide (l_target l = t) && bool_decide (l_type l = ev_type e).

(** Delivering an event to a target runs every listener registered there
    for the event's type. *)
Definition dispatchEvent (t : Target) (e : Event) (st : State) : State :=
  fold_left (fun s l => if listens t e l then l_handler l e s else s)
            listeners st.

(** ** The event loop *)

(** Running the timer with handle [id], possible once it is due.  The entry
    is removed before the callback runs: timers are one-shot.  Any due
    timer may be picked; the order in which a browser runs them is one of
    the orders this allows. *)
Definition fireTimer (id : N) (st : State) : State :=
  match timers st !! id with
  | Some t =>
      if due t <=? now st then
        timerCallback (userText t)
          (mkState (userInput_value st) (chatWindow_children st)
                   (chatWindow_scrollTop st) (now st)
                   (delete id (timers st)) (next_timer_id st))
      else st
  | None => st
  end.

Definition advance (d : N) (st : State) : State :=
  mkState (userInput_value st) (chatWindow_children st)
          (chatWindow_scrollTop st) (now st + d) (timers st)
          (next_timer_id st).

(** What can happen to the page: the user edits the input field, an event
    reaches one of the three nodes, the user scrolls the chat window, time
    passes, or the browser runs a pending timer. *)
Inductive Action :=
  | Edit (v : jsstring)
  | Deliver (t : Target) (e : Event)
  | Scroll (v : N)
  | Wait (d : N)
  | Timeout (id : N).

Definition step (a : Action) (st : State) : State :=
  match a with
  | Edit v => set_value v st
  | Deliver t e => dispatchEvent t e st
  | Scroll v => set_scrollTop v st
  | Wait d => advance d st
  | Timeout id => fireTimer id st
  end.

Fixpoint run (acts : list Action) (st : State) : State :=
  match acts with
  | [] => st
  | a :: rest => run rest (step a st)
  end.

(** The page when the listeners have just been registered.  The markup of
    the page is not part of the script; the page is taken to start with an
    empty input, an empty chat window and no timer. *)
Definition initial : State := mkState [] [] 0 0 ∅ 1.

Definition reachable (st : State) : Prop := ∃ acts, st = run acts initial.

(** The two events of the trigger bindings. *)
Definition clickEvent : Event := mkEvent (lit "click") None.

Definition keyEvent (type key : jsstring) : Event := mkEvent type (Some key).

(** The user clicks the send button; the user presses Enter in the input. *)
Definition clickSend : Action := Deliver sendBtn clickEvent.

Definition pressEnter : Action :=
  Deliver userInput (keyEvent (lit "keypress") (lit "Enter")).

End Script.

(** ** Rendering of assigned markup

    Assigning [innerHTML] makes the browser parse the string as an HTML
    fragment.  The parser is the browser's, not the script's; what follows
    is the part of the HTML tokenizer and tree builder that covers start
    and end tags with double-quoted attributes and properly nested
    [span], [b], [i], [em] and [strong] elements.  Outside of that part
    the functions answer [None] instead of guessing. *)

Inductive Token :=
  | Character (c : N)
  | StartTag (name : jsstring)
  | EndTag (name : jsstring).

(** Tokenizer states, named as in the HTML standard.  The tag states carry
    the tag token under construction: end tag or not, and its name. *)
Inductive TokState :=
  | Data
  | TagOpen
  | EndTagOpen
  | TagName (closing : bool) (name : jsstring)
  | BeforeAttributeName (closing : bool) (name : jsstring)
  | AttributeName (closing : bool) (name : jsstring)
  | AfterAttributeName (closing : bool) (name : jsstring)
  | BeforeAttributeValue (closing : bool) (name : jsstring)
  | AttributeValueDoubleQuoted (closing : bool) (name : jsstring)
  | AfterAttributeValueQuoted (closing : bool) (name : jsstring).

Definition isAsciiUpper (c : N) : bool := (65 <=? c) && (c <=? 90).
Definition isAsciiLower (c : N) : bool := (97 <=? c) && (c <=? 122).
Definition isAsciiAlpha (c : N) : bool := isAsciiUpper c || isAsciiLower c.
Definition toAsciiLower (c : N) : N := if isAsciiUpper c then c + 32 else c.

(** Tab, line feed, form feed and space separate attributes. *)
Definition isTagSpace (c : N) : bool :=
  (c =? 9) || (c =? 10) || (c =? 12) || (c =? 32).

Definition emitTag (closing : bool) (name : jsstring) : Token :=
  if closing then EndTag name else StartTag name.

(** One code unit: the next state and the tokens emitted, or [None] where
    the standard reports a parse error or takes a path that is not modelled
    (character references, NUL, carriage returns, comments, self-closing
    and unquoted syntax). *)
Definition tokStep (s : TokState) (c : N) : option (TokState * list Token) :=
  match s with
  | Data =>
      if c =? 60 then Some (TagOpen, [])
      else if (c =? 38) || (c =? 0) || (c =? 13) then None
      else Some (Data, [Character c])
  | TagOpen =>
      if c =? 47 then Some (EndTagOpen, [])
      else if isAsciiAlpha c then Some (TagName false [toAsciiLower c], [])
      else None
  | EndTagOpen =>
      if isAsciiAlpha c then Some (TagName true [toAsciiLower c], [])
      else None
  | TagName cl n =>
      if isTagSpace c then Some (BeforeAttributeName cl n, [])
      else if c =? 62 then Some (Data, [emitTag cl n])
      else if (c =? 47) || (c =? 0) then None
      else Some (TagName cl (n ++ [toAsciiLower c]), [])
  | BeforeAttributeName cl n =>
      if isTagSpace c then Some (BeforeAttributeName cl n, [])
      else if c =? 62 then Some (Data, [emitTag cl n])
      else if (c =? 47) || (c =? 61) || (c =? 0) || (c =? 34) || (c =? 39)
              || (c =? 60) then None
      else Some (AttributeName cl n, [])
  | AttributeName cl n =>
      if isTagSpace c then Some (AfterAttributeName cl n, [])
      else if c =? 62 then Some (Data, [emitTag cl n])
      else if c =? 61 then Some (BeforeAttributeValue cl n, [])
      else if (c =? 47) || (c =? 0) || (c =? 34) || (c =? 39) || (c =? 60)
           then None
      else Some (AttributeName cl n, [])
  | AfterAttributeName cl n =>
      if isTagSpace c then Some (AfterAttributeName cl n, [])
      else if c =? 62 then Some (Data, [emitTag cl n])
      else if c =? 61 then Some (BeforeAttributeValue cl n, [])
      else if (c =? 47) || (c =? 0) || (c =? 34) || (c =? 39) || (c =? 60)
           then None
      else Some (AttributeName cl n, [])
  | BeforeAttributeValue cl n =>
      if isTagSpace c then Some (BeforeAttributeValue cl n, [])
      else if c =? 34 then Some (AttributeValueDoubleQuoted cl n, [])
      else None
  | AttributeValueDoubleQuoted cl n =>
      if c =? 34 then Some (AfterAttributeValueQuoted cl n, [])
      else if (c =? 38) || (c =? 0) || (c =? 13) then None
      else Some (AttributeValueDoubleQuoted cl n, [])
  | AfterAttributeValueQuoted cl n =>
      if isTagSpace c then Some (BeforeAttributeName cl n, [])
      else if c =? 62 then Some (Data, [emitTag cl n])
      else None
  end.

(** The tokens of the rest of the input from state [s]; the input has to
    end in the data state. *)
Fixpoint tokenizeFrom (s : TokState) (input : jsstring) : option (list Token) :=
  match input with
  | [] => match s with Data => Some [] | _ => None end
  | c :: rest =>
      match tokStep s c with
      | Some (s', out) =>
          match tokenizeFrom s' rest with
          | Some toks => Some (out ++ toks)
          | None => None
          end
      | None => None
      end
  end.

Definition tokenize (input : jsstring) : option (list Token) :=
  tokenizeFrom Data input.

(** DOM nodes of the parsed fragment. *)
#[warnings="-register-all"]
Inductive Node :=
  | Text (data : jsstring)
  | Elem (name : jsstring) (children : list Node).

(** [Node.textContent]. *)
Fixpoint nodeText (n : Node) : jsstring :=
  match n with
  | Text data => data
  | Elem _ kids => concat (map nodeText kids)
  end.

(** Inserting a character: it joins a text node that is the last child. *)
Definition insertCharacter (c : N) (revKids : list Node) : list Node :=
  match revKids with
  | Text data :: r => Text (data ++ [c]) :: r
  | _ => Text [c] :: revKids
  end.

(** Elements whose start and end tags the tree builder handles by a plain
    push and pop when they nest properly. *)
Definition plainElement (name : jsstring) : bool :=
  bool_decide (name ∈ [lit "span"; lit "b"; lit "i"; lit "em"; lit "strong"]).

(** The tree builder: the stack of open elements, innermost first, each with
    its children so far in reverse, above the children of the fragment
    root. *)
Record Builder := mkBuilder {
  openElements : list (jsstring * list Node);
  rootKids : list Node
}.

Definition addNode (n : Node) (b : Builder) : Builder :=
  match openElements b with
  | (name, kids) :: outer => mkBuilder ((name, n :: kids) :: outer) (rootKids b)
  | [] => mkBuilder [] (n :: rootKids b)
  end.

Definition treeStep (b : Builder) (t : Token) : option Builder :=
  match t with
  | Character c =>
      Some match openElements b with
           | (name, kids) :: outer =>
               mkBuilder ((name, insertCharacter c kids) :: outer) (rootKids b)
           | [] => mkBuilder [] (insertCharacter c (rootKids b))
           end
  | StartTag name =>
      if plainElement name
      then Some (mkBuilder ((name, []) :: openElements b) (rootKids b))
      else None
  | EndTag name =>
      match openElements b with
      | (open, kids) :: outer =>
          if bool_decide (open = name)
          then Some (addNode (Elem open (rev kids)) (mkBuilder outer (rootKids b)))
          else None
      | [] => None
      end
  end.

Fixpoint buildFrom (b : Builder) (toks : list Token) : option Builder :=
  match toks with
  | [] => Some b
  | t :: rest =>
      match treeStep b t with
      | Some b' => buildFrom b' rest
      | None => None
      end
  end.

(** At the end of the input the elements still open stay in the tree:
    [inner] is the element just completed, if any. *)
Fixpoint closeAll (open : list (jsstring * list Node)) (inner : list Node)
  (root : list Node) : list Node :=
  match open with
  | [] => rev (inner ++ root)
  | (name, kids) :: outer =>
      closeAll outer [Elem name (rev (inner ++ kids))] root
  end.

(** The children a [div] gets from an [innerHTML] assignment. *)
Definition parseFragment (markup : jsstring) : option (list Node) :=
  match tokenize markup with
  | Some toks =>
      match buildFrom (mkBuilder [] []) toks with
      | Some b => Some (closeAll (openElements b) [] (rootKids b))
      | None => None
      end
  | None => None
  end.

(** [Element.textContent] of a bubble: the text the panel shows for it. *)
Definition textContent (e : Element) : option jsstring :=
  match parseFragment (innerHTML e) with
  | Some kids => Some (concat (map nodeText kids))
  | None => None
  end.

(** Code units that the tokenizer passes on as text in the data state. *)
Definition plainChar (c : N) : bool :=
  negb ((c =? 60) || (c =? 38) || (c =? 0) || (c =? 13)).

(** The role of a bubble, read off its class. *)
Inductive Role := user | assistant.

Definition role (e : Element) : option Role :=
  if decide (className e = lit "message user-message") then Some user
  else if decide (className e = lit "message ai-message") then Some assistant
  else None.

Definition hasRole (r : Role) (e : Element) : bool :=
  match role e, r with
  | Some user, user => true
  | Some assistant, assistant => true
  | _, _ => false
  end.

(** Number of bubbles of a role in the chat window. *)
Definition countRole (r : Role) (l : list Element) : nat :=
  length (filter (fun e => hasRole r e = true) l).

(** A concrete layout for the examples: bubbles of 40px in a 100px viewport. *)
Definition demoLayout : Layout :=
  {| contentHeight := fun l => 40 * N.of_nat (length l); clientHeight := 100 |}.

(** ** Invariants of the event loop *)

(** Every assistant bubble and every pending timer is paid for by a user
    bubble. *)
Definition replies_covered (st : State) : Prop :=
  (countRole assistant (chatWindow_children st) + size (timers st)
   ≤ countRole user (chatWindow_children st))%nat.

(** No pending timer has a handle that [setTimeout] has yet to hand out. *)
Definition handles_fresh (st : State) : Prop :=
  ∀ id, next_timer_id st <= id -> timers st !! id = None.

(** Reading the fields of a state that is given as a record. *)
Ltac fields :=
  unfold advance;
  cbn [userInput_value chatWindow_children chatWindow_scrollTop now timers
       next_timer_id due userText].

(** ** Shapes of the panel *)

(** A text [sendMessage] lets through: not empty, and trimmed. *)
Definition sendable (u : jsstring) : Prop := u ≠ [] ∧ trim u = u.

(** A child made by the script: the user bubble or the reply bubble of a
    sendable text. *)
Definition bubble (e : Element) : Prop :=
  ∃ u, sendable u ∧ (e = userMessageDiv u ∨ e = aiMessageDiv u).

(** The state after a submission of the non-empty trimmed text [S]. *)
Definition afterSubmit `{Layout} (S : jsstring) (st : State) : State :=
  mkState [] (chatWindow_children st ++ [userMessageDiv S])
          (maxScrollTop (appendChild (userMessageDiv S) st)) (now st)
          (<[next_timer_id st := mkTimer (now st + 1000) S]> (timers st))
          (N.succ (next_timer_id st)).

(** The state after the due timer [id], holding [t], has run. *)
Definition afterReply `{Layout} (id : N) (t : Timer) (st : State) : State :=
  mkState (userInput_value st)
          (chatWindow_children st ++ [aiMessageDiv (userText t)])
          (maxScrollTop (appendChild (aiMessageDiv (userText t)) st))
          (now st) (delete id (timers st)) (next_timer_id st).

(** The handles of the pending timers. *)
Definition pendingHandles (st : State) : list N := (map_to_list (timers st)).*1.

(** Letting every pending timer run: a wait of 1000ms, then each timer. *)
Definition drain (st : State) : list Action :=
  Wait 1000 :: map Timeout (pendingHandles st).

(** ** Pages that lack a node

    [getElementById] and [querySelector] answer [null] for a node the page
    does not have, and reading a property of [null] throws a [TypeError]
    that ends the running handler.  The script checks none of its three
    lookups. *)

Record Page := mkPage {
  found_sendBtn : bool;
  found_userInput : bool;
  found_chatWindow : bool
}.

Definition fullPage : Page := mkPage true true true.

(** How a handler ends: it returns, or it throws; either way with what it
    has built so far. *)
Inductive Completion (A : Type) :=
  | Returned (a : A)
  | Threw (a : A).

Arguments Returned {A} a.
Arguments Threw {A} a.

Definition outcome {A : Type} (c : Completion A) : A :=
  match c with
  | Returned a => a
  | Threw a => a
  end.

Section PartialPage.
Context `{Layout}.

(** [sendMessage] on a page: [userInput.value] throws without the input,
    [chatWindow.appendChild] throws without the chat window, before
    anything has been changed. *)
Definition sendMessageOn (pg : Page) (st : State) : Completion State :=
  if found_userInput pg then
    let userText := trim (userInput_value st) in
    if truthy userText then
      if found_chatWindow pg then
        let st1 := appendChild (userMessageDiv userText) st in
        let st2 := set_scrollTop (scrollHeight st1) st1 in
        let st3 := set_value [] st2 in
        Returned (setTimeout userText 1000 st3)
      else Threw st
    else Returned st
  else Threw st.

Record PageListener := mkPageListener {
  pl_target : Target;
  pl_type : jsstring;
  pl_handler : Event -> State -> Completion State
}.

Definition onKeypressOn (pg : Page) (event : Event) (st : State)
  : Completion State :=
  if decide (ev_key event = Some (lit "Enter")) then sendMessageOn pg st
  else Returned st.

(** The [DOMContentLoaded] handler: the three lookups, then the two
    [addEventListener] calls, the first on [sendBtn], the second on
    [userInput]; a call on [null] throws and ends the handler. *)
Definition domContentLoaded (pg : Page) : Completion (list PageListener) :=
  if found_sendBtn pg then
    let onClick :=
      mkPageListener sendBtn (lit "click") (fun _ => sendMessageOn pg) in
    if found_userInput pg then
      Returned [onClick;
                mkPageListener userInput (lit "keypress") (onKeypressOn pg)]
    else Threw [onClick]
  else Threw [].

(** Delivering an event on a page: the listeners that got registered run in
    order; one that throws does not stop the next. *)
Definition deliverOn (pg : Page) (t : Target) (e : Event) (st : State)
  : Completion State :=
  fold_left
    (fun c l =>
       if bool_decide (pl_target l = t) && bool_decide (pl_type l = ev_type e)
       then match c with
            | Returned s => pl_handler l e s
            | Threw s => Threw (outcome (pl_handler l e s))
            end
       else c)
    (outcome (domContentLoaded pg)) (Returned st).

End PartialPage.

(** ** The order in which browsers run the timers

    Timers set with one delay run in the order in which they were set: a
    timer runs only when no older one is pending. *)

(** The handle [id] is not newer than any pending handle. *)
Definition oldest (id : N) (st : State) : bool :=
  forallb (N.leb id) (pendingHandles st).

(** A sequence of actions in which every timer runs oldest first. *)
Fixpoint oldestFirst `{Layout} (acts : list Action) (st : State) : bool :=
  match acts with
  | [] => true
  | a :: rest =>
      match a with
      | Timeout id => oldest id st
      | _ => true
      end && oldestFirst rest (step a st)
  end.

(** The bubbles of one role, in panel order. *)
Definition bubblesOf (r : Role) (l : list Element) : list Element :=
  filter (fun e => hasRole r e = true) l.

(** The panel holds the questions [us] in order, the replies quote the
    first [n] of them in order, and the pending timers, by increasing
    handle, hold the remaining ones in order. *)
Definition queued (st : State) (us : list jsstring) (n : nat) : Prop :=
  (n ≤ length us)%nat
  ∧ bubblesOf user (chatWindow_children st) = userMessageDiv <$> us
  ∧ bubblesOf assistant (chatWindow_children st) = aiMessageDiv <$> take n us
  ∧ ∃ pend : list (N * Timer),
      timers st = list_to_map pend
      ∧ StronglySorted N.lt pend.*1
      ∧ Forall (fun k => k < next_timer_id st) pend.*1
      ∧ userText <$> pend.*2 = drop n us.

(** ** Pages of the examples *)

(** The question a has been asked. *)
Definition oneQuestion : State :=
  @run demoLayout [Edit (lit "a"); clickSend] initial.

(** The questions a and b have been asked, a has been answered. *)
Definition twoQuestions : State :=
  @run demoLayout
    [Edit (lit "a"); clickSend; Edit (lit " b"); pressEnter; Wait 1000;
     Timeout 1] initial.

(** A page without chat window. *)
Definition noChatWindow : Page := mkPage true true false.

(** * Properties *)

Section Properties.
Context `{Layout}.

(** ** Trimming *)

Lemma trimStart_whitespace (s : jsstring) :
  forallb isWhiteSpace s = true -> trimStart s = [].
Proof.
  induction s as [|c r IH]; simpl; [done|].
  intros [Hc Hr]%andb_prop. rewrite Hc. auto.
Qed.

Lemma trim_whitespace (s : jsstring) :
  forallb isWhiteSpace s = true -> trim s = [].
Proof.
  intros Hs. unfold trim, trimEnd. by rewrite (trimStart_whitespace s Hs).
Qed.

Lemma trimStart_suffix (s : jsstring) :
  ∃ k, s = k ++ trimStart s ∧ forallb isWhiteSpace k = true.
Proof.
  induction s as [|c r [k [Hk Hw]]]; simpl.
  - by exists [].
  - destruct (isWhiteSpace c) eqn:Hc.
    + exists (c :: k). simpl. rewrite Hc, Hw. split; [congruence | done].
    + by exists [].
Qed.

(** Only strings made of white space trim to the empty string. *)
Lemma trim_nil_whitespace (s : jsstring) :
  trim s = [] -> forallb isWhiteSpace s = true.
Proof.
  unfold trim, trimEnd. intros Ht.
  destruct (trimStart_suffix s) as [k [Hk Hw]].
  destruct (trimStart_suffix (rev (trimStart s))) as [k' [Hk' Hw']].
  assert (Hnil : trimStart (rev (trimStart s)) = []).
  { apply (f_equal (@rev N)) in Ht. by rewrite rev_involutive in Ht. }
  rewrite Hnil, app_nil_r in Hk'.
  rewrite Hk, forallb_app, Hw. simpl.
  rewrite <- (rev_involutive (trimStart s)), Hk'.
  rewrite forallb_forall. intros x Hx%in_rev.
  revert x Hx. by apply forallb_forall.
Qed.

Lemma truthy_nonempty (s : jsstring) : truthy s = true <-> s ≠ [].
Proof. destruct s; simpl; split; congruence. Qed.

(** ** What [sendMessage] and the timer callback compute *)

Lemma set_scrollTop_bottom (st : State) :
  chatWindow_scrollTop (set_scrollTop (scrollHeight st) st) = maxScrollTop st.
Proof. unfold set_scrollTop, maxScrollTop. simpl. lia. Qed.

Lemma sendMessage_falsy (st : State) :
  trim (userInput_value st) = [] -> sendMessage st = st.
Proof. unfold sendMessage. by intros ->. Qed.

Lemma sendMessage_truthy (st : State) (S : jsstring) :
  trim (userInput_value st) = S -> S ≠ [] ->
  sendMessage st =
    mkState [] (chatWindow_children st ++ [userMessageDiv S])
            (maxScrollTop (appendChild (userMessageDiv S) st)) (now st)
            (<[next_timer_id st := mkTimer (now st + 1000) S]> (timers st))
            (N.succ (next_timer_id st)).
Proof.
  intros HS Hne. unfold sendMessage. rewrite HS.
  destruct S as [|c r]; [done|]. simpl.
  unfold setTimeout, set_value. simpl. f_equal.
  unfold maxScrollTop, scrollHeight. simpl. lia.
Qed.

Lemma timerCallback_eq (u : jsstring) (st : State) :
  timerCallback u st =
    mkState (userInput_value st) (chatWindow_children st ++ [aiMessageDiv u])
            (maxScrollTop (appendChild (aiMessageDiv u) st)) (now st)
            (timers st) (next_timer_id st).
Proof.
  unfold timerCallback, set_scrollTop. simpl. f_equal.
  unfold maxScrollTop, scrollHeight. simpl. lia.
Qed.

Lemma fireTimer_due (id : N) (t : Timer) (st : State) :
  timers st !! id = Some t -> due t <= now st ->
  fireTimer id st =
    mkState (userInput_value st)
            (chatWindow_children st ++ [aiMessageDiv (userText t)])
            (maxScrollTop (appendChild (aiMessageDiv (userText t)) st))
            (now st) (delete id (timers st)) (next_timer_id st).
Proof.
  intros Ht Hd. unfold fireTimer. rewrite Ht.
  apply N.leb_le in Hd. rewrite Hd. by rewrite timerCallback_eq.
Qed.

Lemma fireTimer_early (id : N) (t : Timer) (st : State) :
  timers st !! id = Some t -> now st < due t -> fireTimer id st = st.
Proof.
  intros Ht Hd. unfold fireTimer. rewrite Ht.
  apply N.leb_gt in Hd. by rewrite Hd.
Qed.

Lemma fireTimer_absent (id : N) (st : State) :
  timers st !! id = None -> fireTimer id st = st.
Proof. intros Ht. unfold fireTimer. by rewrite Ht. Qed.

(** ** Event delivery *)

(** Which deliveries reach [sendMessage]: a click on the button, or a
    keypress on the input whose key is Enter. *)
Lemma dispatchEvent_spec (t : Target) (e : Event) (st : State) :
  dispatchEvent t e st =
    if (bool_decide (t = sendBtn) && bool_decide (ev_type e = lit "click"))
       || (bool_decide (t = userInput)
           && bool_decide (ev_type e = lit "keypress")
           && bool_decide (ev_key e = Some (lit "Enter")))
    then sendMessage st else st.
Proof.
  unfold dispatchEvent, listeners, listens. cbn [fold_left l_target l_type l_handler].
  unfold onClick, onKeypress.
  destruct t; repeat (case_bool_decide; try done; cbn [andb orb]);
    repeat (case_decide; try done); congruence.
Qed.

Lemma dispatch_click (st : State) :
  dispatchEvent sendBtn clickEvent st = sendMessage st.
Proof. by rewrite dispatchEvent_spec. Qed.

Lemma dispatch_enter (st : State) :
  dispatchEvent userInput (keyEvent (lit "keypress") (lit "Enter")) st
  = sendMessage st.
Proof. by rewrite dispatchEvent_spec. Qed.

(** ** Roles of the two kinds of bubble *)

Lemma role_userMessageDiv (u : jsstring) : role (userMessageDiv u) = Some user.
Proof. reflexivity. Qed.

Lemma role_aiMessageDiv (u : jsstring) : role (aiMessageDiv u) = Some assistant.
Proof. reflexivity. Qed.

(** The markup of a reply bubble, written out. *)
Lemma aiMessageDiv_markup (u : jsstring) :
  innerHTML (aiMessageDiv u)
  = lit "<span class=" ++ [dquote] ++ lit "message-text" ++ [dquote]
    ++ lit ">" ++ lit "This is a simulated AI response to "
    ++ [dquote] ++ u ++ [dquote] ++ lit "." ++ lit "</span>".
Proof.
  cbn [innerHTML aiMessageDiv]. unfold aiMarkup, aiReply, span_open, span_close.
  by rewrite <- !app_assoc.
Qed.

(** ** Submission *)

(** C1: when the trimmed input [S] is not empty, [sendMessage] appends
    exactly one user bubble carrying [S] and schedules one timer, due 1000ms
    later, that captured [S].  The timer does nothing before it is due; once
    due, running it appends exactly one assistant bubble carrying the fixed
    reply template around [S], and it cannot run a second time.  The text of
    a bubble is the string placed in its [message-text] span. *)
Theorem C1_submit_user_then_reply (st : State) (S : jsstring) :
  trim (userInput_value st) = S -> S ≠ [] ->
  let st1 := sendMessage st in
  let id := next_timer_id st in
  chatWindow_children st1 = chatWindow_children st ++ [userMessageDiv S]
  ∧ role (userMessageDiv S) = Some user
  ∧ innerHTML (userMessageDiv S) = span_open ++ S ++ span_close
  ∧ timers st1 = <[id := mkTimer (now st + 1000) S]> (timers st)
  ∧ (∀ d, d < 1000 -> fireTimer id (advance d st1) = advance d st1)
  ∧ (∀ d, 1000 <= d ->
       let st2 := fireTimer id (advance d st1) in
       chatWindow_children st2
       = chatWindow_children st ++ [userMessageDiv S; aiMessageDiv S]
       ∧ timers st2 = delete id (timers st)
       ∧ fireTimer id st2 = st2)
  ∧ role (aiMessageDiv S) = Some assistant
  ∧ innerHTML (aiMessageDiv S)
    = span_open
      ++ (lit "This is a simulated AI response to " ++ [dquote] ++ S
          ++ [dquote] ++ lit ".")
      ++ span_close.
Proof.
  intros HS Hne st1 id. subst st1 id.
  rewrite (sendMessage_truthy st S HS Hne). cbn [chatWindow_children timers].
  set (tm := mkTimer (now st + 1000) S).
  assert (Hfire : ∀ d, 1000 <= d ->
    fireTimer (next_timer_id st)
      (advance d (mkState [] (chatWindow_children st ++ [userMessageDiv S])
         (maxScrollTop (appendChild (userMessageDiv S) st)) (now st)
         (<[next_timer_id st := tm]> (timers st)) (N.succ (next_timer_id st))))
    = mkState [] (chatWindow_children st ++ [userMessageDiv S; aiMessageDiv S])
        (maxScrollTop (appendChild (aiMessageDiv S)
           (appendChild (userMessageDiv S) st)))
        (now st + d) (delete (next_timer_id st) (timers st))
        (N.succ (next_timer_id st))).
  { intros d Hd. rewrite (fireTimer_due _ tm).
    - cbn [advance userInput_value chatWindow_children timers now
           next_timer_id userText tm].
      rewrite delete_insert_eq, <- app_assoc. done.
    - apply lookup_insert_eq.
    - cbn [advance now due tm]. lia. }
  split_and!; try done.
  - intros d Hd. apply (fireTimer_early _ tm).
    + apply lookup_insert_eq.
    + cbn [advance now due tm]. lia.
  - intros d Hd. cbn zeta. rewrite (Hfire d Hd).
    split_and!; try done.
    apply fireTimer_absent, lookup_delete_eq.
Qed.

(** C2: when the trimmed input is empty, that is when the input is empty or
    holds white space only, [sendMessage] returns the state it was given:
    no bubble, the input field as it was, no timer; the same holds for
    both triggers.  [sendMessage] is a total function, it has no error
    result. *)
Theorem C2_blank_input_noop (st : State) :
  trim (userInput_value st) = []
  ∨ forallb isWhiteSpace (userInput_value st) = true ->
  trim (userInput_value st) = []
  ∧ forallb isWhiteSpace (userInput_value st) = true
  ∧ sendMessage st = st
  ∧ step clickSend st = st
  ∧ step pressEnter st = st.
Proof.
  intros Hblank.
  assert (Ht : trim (userInput_value st) = [])
    by (destruct Hblank; [done | by apply trim_whitespace]).
  cbn [step clickSend pressEnter]. rewrite dispatch_click, dispatch_enter.
  rewrite (sendMessage_falsy st Ht).
  split_and!; try done. by apply trim_nil_whitespace.
Qed.

(** ** Trigger bindings *)

(** C4 (as amended): a click delivered to the send button and a keypress
    delivered to the input field with key Enter invoke [sendMessage], which
    reads the current value of the input field; every other delivery, in
    particular a keypress of another key and a keydown or keyup of any key,
    leaves the page as it is. *)
Theorem C4_click_or_keypress_enter (t : Target) (e : Event) (st : State) :
  dispatchEvent t e st =
    if (bool_decide (t = sendBtn) && bool_decide (ev_type e = lit "click"))
       || (bool_decide (t = userInput)
           && bool_decide (ev_type e = lit "keypress")
           && bool_decide (ev_key e = Some (lit "Enter")))
    then sendMessage st else st.
Proof. apply dispatchEvent_spec. Qed.

(** ** The chat window only grows *)

Lemma sendMessage_prefix (st : State) :
  chatWindow_children st `prefix_of` chatWindow_children (sendMessage st).
Proof.
  destruct (trim (userInput_value st)) as [|c r] eqn:Ht.
  - by rewrite (sendMessage_falsy st Ht).
  - rewrite (sendMessage_truthy st (c :: r) Ht); [|done].
    by eexists.
Qed.

Lemma timerCallback_prefix (u : jsstring) (st : State) :
  chatWindow_children st `prefix_of` chatWindow_children (timerCallback u st).
Proof. rewrite timerCallback_eq. by eexists. Qed.

Lemma fireTimer_cases (id : N) (st : State) :
  fireTimer id st = st
  ∨ ∃ t, timers st !! id = Some t ∧ due t <= now st.
Proof.
  destruct (timers st !! id) as [t|] eqn:Ht.
  - destruct (N.le_gt_cases (due t) (now st)) as [Hd|Hd].
    + right. by exists t.
    + left. by apply (fireTimer_early id t).
  - left. by apply fireTimer_absent.
Qed.

Lemma fireTimer_prefix (id : N) (st : State) :
  chatWindow_children st `prefix_of` chatWindow_children (fireTimer id st).
Proof.
  destruct (fireTimer_cases id st) as [-> | (t & Ht & Hd)]; [done|].
  rewrite (fireTimer_due id t st Ht Hd). by eexists.
Qed.

Lemma step_prefix (a : Action) (st : State) :
  chatWindow_children st `prefix_of` chatWindow_children (step a st).
Proof.
  destruct a as [v|t e|v|d|id]; cbn [step]; try done.
  - rewrite dispatchEvent_spec. case_match; [apply sendMessage_prefix | done].
  - apply fireTimer_prefix.
Qed.

Lemma run_prefix (acts : list Action) (st : State) :
  chatWindow_children st `prefix_of` chatWindow_children (run acts st).
Proof.
  revert st. induction acts as [|a rest IH]; intros st; cbn [run]; [done|].
  etrans; [apply step_prefix | apply IH].
Qed.

(** C5: the children of the chat window after [sendMessage], after a timer
    callback, and after any sequence of actions start with the children
    there were before: bubbles already appended keep their position, class
    and markup, and none is removed. *)
Theorem C5_append_only (acts : list Action) (u : jsstring) (st : State) :
  chatWindow_children st `prefix_of` chatWindow_children (sendMessage st)
  ∧ chatWindow_children st `prefix_of` chatWindow_children (timerCallback u st)
  ∧ chatWindow_children st `prefix_of` chatWindow_children (run acts st)
  ∧ (∀ i e, chatWindow_children st !! i = Some e ->
            chatWindow_children (run acts st) !! i = Some e).
Proof.
  split_and!.
  - apply sendMessage_prefix.
  - apply timerCallback_prefix.
  - apply run_prefix.
  - intros i e Hi. by eapply prefix_lookup_Some, run_prefix.
Qed.

(** ** Clearing and scrolling *)

(** C6: after a submission with non-empty trimmed input the input field is
    empty and the chat window is scrolled to its largest offset; when the
    timer of that submission runs, and more generally whenever a due timer
    runs in any state, the chat window is again at its largest offset. *)
Theorem C6_clear_and_scroll (st : State) (S : jsstring) :
  trim (userInput_value st) = S -> S ≠ [] ->
  let st1 := sendMessage st in
  userInput_value st1 = []
  ∧ chatWindow_scrollTop st1 = maxScrollTop st1
  ∧ (∀ d, 1000 <= d ->
       let st2 := fireTimer (next_timer_id st) (advance d st1) in
       chatWindow_children st2
       = chatWindow_children st1 ++ [aiMessageDiv S]
       ∧ chatWindow_scrollTop st2 = maxScrollTop st2)
  ∧ (∀ st' id t, timers st' !! id = Some t -> due t <= now st' ->
       chatWindow_scrollTop (fireTimer id st')
       = maxScrollTop (fireTimer id st')).
Proof.
  intros HS Hne st1. subst st1.
  rewrite (sendMessage_truthy st S HS Hne).
  split_and!; try done.
  - intros d Hd. cbn zeta.
    rewrite (fireTimer_due _ (mkTimer (now st + 1000) S)).
    + done.
    + apply lookup_insert_eq.
    + cbn [advance now due]. lia.
  - intros st' id t Ht Hd. by rewrite (fireTimer_due id t st' Ht Hd).
Qed.

(** ** Counting bubbles *)

Lemma countRole_app (r : Role) (l1 l2 : list Element) :
  countRole r (l1 ++ l2) = (countRole r l1 + countRole r l2)%nat.
Proof. unfold countRole. by rewrite filter_app, length_app. Qed.

Lemma sendMessage_covered (st : State) :
  replies_covered st -> replies_covered (sendMessage st).
Proof.
  unfold replies_covered. intros Hinv.
  destruct (trim (userInput_value st)) as [|c r] eqn:Ht.
  - by rewrite (sendMessage_falsy st Ht).
  - rewrite (sendMessage_truthy st (c :: r) Ht); [|done].
    cbn [chatWindow_children timers]. rewrite !countRole_app, map_size_insert.
    change (countRole assistant [userMessageDiv (c :: r)]) with 0%nat.
    change (countRole user [userMessageDiv (c :: r)]) with 1%nat.
    destruct (timers st !! next_timer_id st); simpl; lia.
Qed.

Lemma fireTimer_covered (id : N) (st : State) :
  replies_covered st -> replies_covered (fireTimer id st).
Proof.
  unfold replies_covered. intros Hinv.
  destruct (fireTimer_cases id st) as [-> | (t & Ht & Hd)]; [done|].
  rewrite (fireTimer_due id t st Ht Hd).
  cbn [chatWindow_children timers]. rewrite !countRole_app, map_size_delete, Ht.
  change (countRole assistant [aiMessageDiv (userText t)]) with 1%nat.
  change (countRole user [aiMessageDiv (userText t)]) with 0%nat.
  assert (size (timers st) ≠ 0%nat).
  { intros Hz%map_size_empty_iff. by rewrite Hz, lookup_empty in Ht. }
  simpl. lia.
Qed.

Lemma step_covered (a : Action) (st : State) :
  replies_covered st -> replies_covered (step a st).
Proof.
  destruct a as [v|t e|v|d|id]; cbn [step]; try done.
  - rewrite dispatchEvent_spec. case_match; [apply sendMessage_covered | done].
  - apply fireTimer_covered.
Qed.

Lemma run_covered (acts : list Action) (st : State) :
  replies_covered st -> replies_covered (run acts st).
Proof.
  revert st. induction acts as [|a rest IH]; intros st Hinv; cbn [run]; [done|].
  by apply IH, step_covered.
Qed.

(** C8: in every state reached from the initial page, the chat window holds
    at most as many assistant bubbles as user bubbles. *)
Theorem C8_replies_at_most_questions (st : State) :
  reachable st ->
  (countRole assistant (chatWindow_children st)
   ≤ countRole user (chatWindow_children st))%nat.
Proof.
  intros [acts ->].
  assert (Hinv : replies_covered (run acts initial)).
  { apply run_covered. unfold replies_covered. simpl. by rewrite map_size_empty. }
  unfold replies_covered in Hinv. lia.
Qed.

(** ** Timer handles *)

Lemma sendMessage_fresh (st : State) :
  handles_fresh st -> handles_fresh (sendMessage st).
Proof.
  unfold handles_fresh. intros Hinv.
  destruct (trim (userInput_value st)) as [|c r] eqn:Ht.
  - by rewrite (sendMessage_falsy st Ht).
  - rewrite (sendMessage_truthy st (c :: r) Ht); [|done].
    cbn [timers next_timer_id]. intros id Hid.
    rewrite lookup_insert_ne by lia. apply Hinv. lia.
Qed.

Lemma fireTimer_fresh (id : N) (st : State) :
  handles_fresh st -> handles_fresh (fireTimer id st).
Proof.
  unfold handles_fresh. intros Hinv.
  destruct (fireTimer_cases id st) as [-> | (t & Ht & Hd)]; [done|].
  rewrite (fireTimer_due id t st Ht Hd). cbn [timers next_timer_id].
  intros id' Hid. destruct (decide (id = id')) as [->|Hne].
  - apply lookup_delete_eq.
  - rewrite lookup_delete_ne by done. by apply Hinv.
Qed.

Lemma step_fresh (a : Action) (st : State) :
  handles_fresh st -> handles_fresh (step a st).
Proof.
  destruct a as [v|t e|v|d|id]; cbn [step]; try done.
  - rewrite dispatchEvent_spec. case_match; [apply sendMessage_fresh | done].
  - apply fireTimer_fresh.
Qed.

Lemma run_fresh (acts : list Action) (st : State) :
  handles_fresh st -> handles_fresh (run acts st).
Proof.
  revert st. induction acts as [|a rest IH]; intros st Hinv; cbn [run]; [done|].
  by apply IH, step_fresh.
Qed.

Lemma reachable_fresh (st : State) : reachable st -> handles_fresh st.
Proof.
  intros [acts ->]. apply run_fresh. intros id _. apply lookup_empty.
Qed.

(** ** Scenarios *)

Lemma run_app (l1 l2 : list Action) (st : State) :
  run (l1 ++ l2) st = run l2 (run l1 st).
Proof. revert st. induction l1 as [|a l1 IH]; intros st; cbn [run app]; auto. Qed.

(** Typing [v] and triggering a submission. *)
Lemma submit_eq (v S : jsstring) (trigger : Action) (st : State) :
  trigger = clickSend ∨ trigger = pressEnter ->
  trim v = S -> S ≠ [] ->
  run [Edit v; trigger] st =
    mkState [] (chatWindow_children st ++ [userMessageDiv S])
            (maxScrollTop (appendChild (userMessageDiv S) st)) (now st)
            (<[next_timer_id st := mkTimer (now st + 1000) S]> (timers st))
            (N.succ (next_timer_id st)).
Proof.
  intros Htr HS Hne. cbn [run].
  assert (Hsend : step trigger (step (Edit v) st) = sendMessage (set_value v st)).
  { destruct Htr as [-> | ->]; cbn [step];
      [apply dispatch_click | apply dispatch_enter]. }
  rewrite Hsend. by rewrite (sendMessage_truthy (set_value v st) S HS Hne).
Qed.

(** Two submissions, the second before any timer has run, then both
    timers in either order. *)
Lemma two_pending (st : State) (va vb A B : jsstring) (ta tb : Action)
    (d1 d2 : N) :
  ta = clickSend ∨ ta = pressEnter -> tb = clickSend ∨ tb = pressEnter ->
  trim va = A -> A ≠ [] -> trim vb = B -> B ≠ [] -> 1000 <= d2 ->
  let ida := next_timer_id st in
  let idb := N.succ ida in
  let st2 := run ([Edit va; ta] ++ [Wait d1] ++ [Edit vb; tb] ++ [Wait d2]) st in
  chatWindow_children st2
  = chatWindow_children st ++ [userMessageDiv A; userMessageDiv B]
  ∧ timers st2 !! ida = Some (mkTimer (now st + 1000) A)
  ∧ timers st2 !! idb = Some (mkTimer (now st + d1 + 1000) B)
  ∧ chatWindow_children (run [Timeout ida; Timeout idb] st2)
    = chatWindow_children st
      ++ [userMessageDiv A; userMessageDiv B; aiMessageDiv A; aiMessageDiv B]
  ∧ chatWindow_children (run [Timeout idb; Timeout ida] st2)
    = chatWindow_children st
      ++ [userMessageDiv A; userMessageDiv B; aiMessageDiv B; aiMessageDiv A].
Proof.
  intros Hta Htb HA HAne HB HBne Hd ida idb st2. subst st2.
  rewrite !run_app, (submit_eq va A ta st Hta HA HAne).
  change (run [Wait d1]) with (advance d1).
  rewrite (submit_eq vb B tb _ Htb HB HBne).
  change (run [Wait d2]) with (advance d2). fields.
  fold ida. fold idb.
  set (tmA := mkTimer (now st + 1000) A).
  set (tmB := mkTimer (now st + d1 + 1000) B).
  assert (Hne : ida ≠ idb) by (subst idb; lia).
  assert (HlA : (<[idb := tmB]> (<[ida := tmA]> (timers st))) !! ida = Some tmA).
  { rewrite lookup_insert_ne by done. apply lookup_insert_eq. }
  assert (HlB : (<[idb := tmB]> (<[ida := tmA]> (timers st))) !! idb = Some tmB).
  { apply lookup_insert_eq. }
  split_and!.
  - by rewrite <- app_assoc.
  - done.
  - done.
  - cbn [run step].
    rewrite (fireTimer_due ida tmA); [| done | unfold tmA; fields; lia].
    rewrite (fireTimer_due idb tmB);
      [| fields; by rewrite lookup_delete_ne | unfold tmB; fields; lia].
    unfold tmA, tmB. fields. by rewrite <- !app_assoc.
  - cbn [run step].
    rewrite (fireTimer_due idb tmB); [| done | unfold tmB; fields; lia].
    rewrite (fireTimer_due ida tmA);
      [| fields; by rewrite lookup_delete_ne | unfold tmA; fields; lia].
    unfold tmA, tmB. fields. by rewrite <- !app_assoc.
Qed.

(** One submission, then its timer once it is due. *)
Lemma one_round (st : State) (v S : jsstring) (tr : Action) (d : N) :
  tr = clickSend ∨ tr = pressEnter ->
  trim v = S -> S ≠ [] -> 1000 <= d ->
  run ([Edit v; tr] ++ [Wait d; Timeout (next_timer_id st)]) st =
    mkState [] (chatWindow_children st ++ [userMessageDiv S; aiMessageDiv S])
            (maxScrollTop (appendChild (aiMessageDiv S)
                             (appendChild (userMessageDiv S) st)))
            (now st + d) (delete (next_timer_id st) (timers st))
            (N.succ (next_timer_id st)).
Proof.
  intros Htr HS Hne Hd. rewrite run_app, (submit_eq v S tr st Htr HS Hne).
  cbn [run step].
  rewrite (fireTimer_due _ (mkTimer (now st + 1000) S)).
  - cbn [advance userInput_value chatWindow_children now timers
         next_timer_id userText].
    by rewrite delete_insert_eq, <- app_assoc.
  - apply lookup_insert_eq.
  - cbn [advance now due]. lia.
Qed.

(** C3: two submissions with trimmed texts [A] and [B], the second made
    while the timer of the first is still pending, leave user bubble [A]
    then user bubble [B] and two pending timers, one holding [A] and one
    holding [B].  In whichever order the two timers run, each appends the
    reply to the text of its own submission.  A user bubble has the class
    of user messages and its span holds the submitted text; a reply bubble
    has the class of assistant messages and its span holds the reply
    sentence quoting the text of its submission. *)
Theorem C3_overlapping_submissions (st : State) (va vb A B : jsstring)
    (ta tb : Action) (d1 d2 : N) :
  ta = clickSend ∨ ta = pressEnter -> tb = clickSend ∨ tb = pressEnter ->
  trim va = A -> A ≠ [] -> trim vb = B -> B ≠ [] -> 1000 <= d2 ->
  let ida := next_timer_id st in
  let idb := N.succ ida in
  let st2 := run ([Edit va; ta] ++ [Wait d1] ++ [Edit vb; tb] ++ [Wait d2]) st in
  chatWindow_children st2
  = chatWindow_children st ++ [userMessageDiv A; userMessageDiv B]
  ∧ timers st2 !! ida = Some (mkTimer (now st + 1000) A)
  ∧ timers st2 !! idb = Some (mkTimer (now st + d1 + 1000) B)
  ∧ chatWindow_children (run [Timeout ida; Timeout idb] st2)
    = chatWindow_children st
      ++ [userMessageDiv A; userMessageDiv B; aiMessageDiv A; aiMessageDiv B]
  ∧ chatWindow_children (run [Timeout idb; Timeout ida] st2)
    = chatWindow_children st
      ++ [userMessageDiv A; userMessageDiv B; aiMessageDiv B; aiMessageDiv A]
  ∧ (∀ u, className (userMessageDiv u) = lit "message user-message"
          ∧ role (userMessageDiv u) = Some user
          ∧ innerHTML (userMessageDiv u)
            = lit "<span class=" ++ [dquote] ++ lit "message-text" ++ [dquote]
              ++ lit ">" ++ u ++ lit "</span>")
  ∧ (∀ u, className (aiMessageDiv u) = lit "message ai-message"
          ∧ role (aiMessageDiv u) = Some assistant
          ∧ innerHTML (aiMessageDiv u)
            = lit "<span class=" ++ [dquote] ++ lit "message-text" ++ [dquote]
              ++ lit ">" ++ lit "This is a simulated AI response to "
              ++ [dquote] ++ u ++ [dquote] ++ lit "." ++ lit "</span>").
Proof.
  intros Hta Htb HA HAne HB HBne Hd ida idb st2.
  pose proof (two_pending st va vb A B ta tb d1 d2 Hta Htb HA HAne HB HBne Hd)
    as HP.
  cbv zeta in HP. destruct HP as (Hkids & HtA & HtB & Hab & Hba).
  split_and!; [exact Hkids | exact HtA | exact HtB | exact Hab | exact Hba | |].
  - intros u. split_and!; reflexivity.
  - intros u. split_and!; [reflexivity | reflexivity |].
    apply aiMessageDiv_markup.
Qed.

(** C7: submitting the same text twice gives two user bubbles and two
    assistant bubbles, four new children in all, whether the second
    submission comes before or after the first reply: two more children of
    the user class whose span holds the text, and two more of the assistant
    class whose span holds the reply sentence quoting it. *)
Theorem C7_same_text_twice (st : State) (v S : jsstring) (d1 d2 : N) :
  trim v = S -> S ≠ [] -> 1000 <= d2 ->
  let id := next_timer_id st in
  let early :=
    run ([Edit v; clickSend] ++ [Wait d1] ++ [Edit v; clickSend] ++ [Wait d2]
         ++ [Timeout id; Timeout (N.succ id)]) st in
  let late :=
    run (([Edit v; clickSend] ++ [Wait d1; Timeout id])
         ++ ([Edit v; clickSend] ++ [Wait d2; Timeout (N.succ id)])) st in
  chatWindow_children early
  = chatWindow_children st
    ++ [userMessageDiv S; userMessageDiv S; aiMessageDiv S; aiMessageDiv S]
  ∧ length (chatWindow_children early) = (length (chatWindow_children st) + 4)%nat
  ∧ (1000 <= d1 ->
     chatWindow_children late
     = chatWindow_children st
       ++ [userMessageDiv S; aiMessageDiv S; userMessageDiv S; aiMessageDiv S]
     ∧ length (chatWindow_children late)
       = (length (chatWindow_children st) + 4)%nat)
  ∧ countRole user (chatWindow_children early)
    = (countRole user (chatWindow_children st) + 2)%nat
  ∧ countRole assistant (chatWindow_children early)
    = (countRole assistant (chatWindow_children st) + 2)%nat
  ∧ (1000 <= d1 ->
     countRole user (chatWindow_children late)
     = (countRole user (chatWindow_children st) + 2)%nat
     ∧ countRole assistant (chatWindow_children late)
       = (countRole assistant (chatWindow_children st) + 2)%nat)
  ∧ (∀ u, className (userMessageDiv u) = lit "message user-message"
          ∧ role (userMessageDiv u) = Some user
          ∧ innerHTML (userMessageDiv u)
            = lit "<span class=" ++ [dquote] ++ lit "message-text" ++ [dquote]
              ++ lit ">" ++ u ++ lit "</span>")
  ∧ (∀ u, className (aiMessageDiv u) = lit "message ai-message"
          ∧ role (aiMessageDiv u) = Some assistant
          ∧ innerHTML (aiMessageDiv u)
            = lit "<span class=" ++ [dquote] ++ lit "message-text" ++ [dquote]
              ++ lit ">" ++ lit "This is a simulated AI response to "
              ++ [dquote] ++ u ++ [dquote] ++ lit "." ++ lit "</span>").
Proof.
  intros HS Hne Hd2 id early late.
  assert (Hclick : clickSend = clickSend ∨ clickSend = pressEnter) by by left.
  assert (Hearly : chatWindow_children early
    = chatWindow_children st
      ++ [userMessageDiv S; userMessageDiv S; aiMessageDiv S; aiMessageDiv S]).
  { subst early. rewrite !app_assoc, run_app, <- !app_assoc.
    apply (two_pending st v v S S clickSend clickSend d1 d2); done. }
  assert (Hlate : 1000 <= d1 -> chatWindow_children late
    = chatWindow_children st
      ++ [userMessageDiv S; aiMessageDiv S; userMessageDiv S; aiMessageDiv S]).
  { intros Hd1. subst late id.
    rewrite run_app, (one_round st v S clickSend d1 Hclick HS Hne Hd1).
    match goal with |- context [run _ ?s] => set (st' := s) end.
    change (N.succ (next_timer_id st)) with (next_timer_id st').
    rewrite (one_round st' v S clickSend d2 Hclick HS Hne Hd2).
    subst st'. fields. by rewrite <- app_assoc. }
  split_and!.
  - done.
  - rewrite Hearly, length_app. done.
  - intros Hd1. rewrite (Hlate Hd1), length_app. done.
  - rewrite Hearly, countRole_app. reflexivity.
  - rewrite Hearly, countRole_app. reflexivity.
  - intros Hd1. rewrite (Hlate Hd1), !countRole_app. split; reflexivity.
  - intros u. split_and!; reflexivity.
  - intros u. split_and!; [reflexivity | reflexivity |].
    apply aiMessageDiv_markup.
Qed.

(** C10: from two reachable states with the same chat window children and
    the same input value (clock, scroll offset and pending timers may
    differ), a submission followed by the run of its timer ends with the
    same children, hence the same appended bubbles, and the same input
    value. *)
Theorem C10_submit_deterministic (st1 st2 : State) (d1 d2 : N) :
  reachable st1 -> reachable st2 ->
  chatWindow_children st1 = chatWindow_children st2 ->
  userInput_value st1 = userInput_value st2 ->
  1000 <= d1 -> 1000 <= d2 ->
  let settle d st :=
    run [clickSend; Wait d; Timeout (next_timer_id st)] st in
  chatWindow_children (settle d1 st1) = chatWindow_children (settle d2 st2)
  ∧ userInput_value (settle d1 st1) = userInput_value (settle d2 st2).
Proof.
  intros Hr1%reachable_fresh Hr2%reachable_fresh Hkids Hval Hd1 Hd2 settle.
  assert (Hsettle : ∀ d st, handles_fresh st -> 1000 <= d ->
    chatWindow_children (settle d st)
    = chatWindow_children st
      ++ match trim (userInput_value st) with
         | [] => []
         | c :: r => [userMessageDiv (c :: r); aiMessageDiv (c :: r)]
         end
    ∧ userInput_value (settle d st)
      = match trim (userInput_value st) with
        | [] => userInput_value st
        | _ => []
        end).
  { intros d st Hfresh Hd. subst settle. cbn [run step clickSend].
    rewrite dispatch_click.
    destruct (trim (userInput_value st)) as [|c r] eqn:Ht.
    - rewrite (sendMessage_falsy st Ht), fireTimer_absent.
      + fields. by rewrite app_nil_r.
      + fields. by apply Hfresh.
    - rewrite (sendMessage_truthy st (c :: r) Ht); [|done].
      rewrite (fireTimer_due _ (mkTimer (now st + 1000) (c :: r)));
        [| apply lookup_insert_eq | fields; lia].
      fields. by rewrite <- app_assoc. }
  destruct (Hsettle d1 st1 Hr1 Hd1) as [-> ->].
  destruct (Hsettle d2 st2 Hr2 Hd2) as [-> ->].
  by rewrite Hkids, Hval.
Qed.

(** ** What the panel shows *)

Lemma tokenize_plain (T rest : jsstring) :
  forallb plainChar T = true ->
  tokenizeFrom Data (T ++ rest) =
    match tokenizeFrom Data rest with
    | Some toks => Some (map Character T ++ toks)
    | None => None
    end.
Proof.
  induction T as [|c r IH]; cbn [app map forallb].
  - intros _. by destruct (tokenizeFrom Data rest).
  - intros [Hc Hr]%andb_prop. cbn [tokenizeFrom].
    assert (Hstep : tokStep Data c = Some (Data, [Character c])).
    { unfold plainChar in Hc. cbn [tokStep].
      destruct (c =? 60); [done|]. cbn [orb negb] in Hc.
      by destruct ((c =? 38) || (c =? 0) || (c =? 13)). }
    rewrite Hstep, (IH Hr). by destruct (tokenizeFrom Data rest).
Qed.

Lemma tokenize_span_open (rest : jsstring) :
  tokenizeFrom Data (span_open ++ rest) =
    match tokenizeFrom Data rest with
    | Some toks => Some (StartTag (lit "span") :: toks)
    | None => None
    end.
Proof.
  let markup := eval vm_compute in (span_open ++ rest) in
  change (span_open ++ rest) with markup.
  simpl. by destruct (tokenizeFrom Data rest).
Qed.

Lemma insert_characters (T d : jsstring) (r : list Node) :
  fold_left (λ kids c, insertCharacter c kids) T (Text d :: r)
  = Text (d ++ T) :: r.
Proof.
  revert d. induction T as [|c T IH]; intros d; cbn [fold_left insertCharacter].
  - by rewrite app_nil_r.
  - by rewrite IH, <- app_assoc.
Qed.

Lemma build_characters (T : jsstring) (toks : list Token) (name : jsstring)
    (kids : list Node) (outer : list (jsstring * list Node)) (root : list Node) :
  buildFrom (mkBuilder ((name, kids) :: outer) root) (map Character T ++ toks)
  = buildFrom
      (mkBuilder
         ((name, fold_left (λ kids c, insertCharacter c kids) T kids) :: outer)
         root)
      toks.
Proof.
  revert kids. induction T as [|c T IH]; intros kids; [done|].
  cbn [map app buildFrom treeStep openElements rootKids fold_left]. apply IH.
Qed.

(** Text without markup is shown as it is: a bubble whose span holds a
    string free of [<], [&], NUL and carriage return shows that string. *)
Lemma textContent_plain (cls T : jsstring) :
  forallb plainChar T = true ->
  textContent (mkElement cls (span_open ++ T ++ span_close)) = Some T.
Proof.
  intros HT. unfold textContent, parseFragment, tokenize. cbn [innerHTML].
  rewrite tokenize_span_open, (tokenize_plain T span_close HT).
  change (tokenizeFrom Data span_close) with (Some [EndTag (lit "span")]).
  cbn [buildFrom treeStep openElements rootKids].
  change (plainElement (lit "span")) with true. cbv iota.
  rewrite build_characters.
  cbn [buildFrom treeStep openElements rootKids].
  change (bool_decide (lit "span" = lit "span")) with true. cbv iota.
  destruct T as [|c T].
  - reflexivity.
  - cbn [fold_left]. change (insertCharacter c []) with [Text [c]].
    rewrite insert_characters.
    cbn [addNode openElements rootKids closeAll rev app map nodeText concat].
    by rewrite !app_nil_r.
Qed.

(** C9: there is a non-empty, already trimmed input whose user bubble and
    whose assistant bubble show a text other than the one submitted: for
    [<b>x</b>] the markup is parsed, the user bubble shows [x] and the reply
    quotes [x]. *)
Theorem C9_markup_not_shown_verbatim (st : State) :
  ∃ S shown : jsstring,
    S ≠ [] ∧ trim S = S
    ∧ chatWindow_children (sendMessage (set_value S st))
      = chatWindow_children st ++ [userMessageDiv S]
    ∧ textContent (userMessageDiv S) = Some shown
    ∧ shown ≠ S
    ∧ textContent (aiMessageDiv S) = Some (aiReply shown)
    ∧ aiReply shown ≠ aiReply S.
Proof.
  exists (lit "<b>x</b>"), (lit "x").
  split_and!; [done | reflexivity | | reflexivity | done | reflexivity | done].
  by rewrite (sendMessage_truthy (set_value (lit "<b>x</b>") st)
                (lit "<b>x</b>") eq_refl).
Qed.

(** * Further properties of the script *)

(** ** Induction over the reachable states *)

Lemma reachable_initial : reachable initial.
Proof. by exists []. Qed.

Lemma reachable_step (a : Action) (st : State) :
  reachable st -> reachable (step a st).
Proof. intros [acts ->]. exists (acts ++ [a]). by rewrite run_app. Qed.

Lemma reachable_run (acts : list Action) (st : State) :
  reachable st -> reachable (run acts st).
Proof.
  revert st. induction acts as [|a rest IH]; intros st Hr; [done|].
  by apply IH, reachable_step.
Qed.

(** Every step is the identity, an edit, a scroll, a wait, a submission of
    a sendable text, or the run of a due timer. *)
Lemma step_cases (a : Action) (st : State) :
  step a st = st
  ∨ (∃ v, step a st = set_value v st)
  ∨ (∃ v, step a st = set_scrollTop v st)
  ∨ (∃ d, step a st = advance d st)
  ∨ (∃ S, trim (userInput_value st) = S ∧ S ≠ [] ∧ step a st = afterSubmit S st)
  ∨ (∃ id t, a = Timeout id ∧ timers st !! id = Some t ∧ due t <= now st
             ∧ step a st = afterReply id t st).
Proof.
  destruct a as [v|t e|v|d|id]; cbn [step].
  - right; left. by exists v.
  - rewrite dispatchEvent_spec. case_match; [|by left].
    destruct (trim (userInput_value st)) as [|c r] eqn:Ht.
    + left. by apply sendMessage_falsy.
    + do 4 right; left. exists (c :: r). split_and!; [done..|].
      by apply sendMessage_truthy.
  - right; right; left. by exists v.
  - right; right; right; left. by exists d.
  - destruct (fireTimer_cases id st) as [-> | (t & Ht & Hd)]; [by left|].
    do 5 right. exists id, t. split_and!; [done..|]. by apply fireTimer_due.
Qed.

Lemma reachable_invariant (P : State -> Prop) :
  P initial ->
  (∀ st v, reachable st -> P st -> P (set_value v st)) ->
  (∀ st v, reachable st -> P st -> P (set_scrollTop v st)) ->
  (∀ st d, reachable st -> P st -> P (advance d st)) ->
  (∀ st S, reachable st -> P st -> trim (userInput_value st) = S -> S ≠ [] ->
           P (afterSubmit S st)) ->
  (∀ st id t, reachable st -> P st -> timers st !! id = Some t ->
              due t <= now st -> P (afterReply id t st)) ->
  ∀ st, reachable st -> P st.
Proof.
  intros Hinit Hedit Hscroll Hwait Hsubmit Hreply st [acts ->].
  induction acts as [|a acts IH] using rev_ind; [done|].
  rewrite run_app. cbn [run].
  assert (Hr : reachable (run acts initial)) by by exists acts.
  destruct (step_cases a (run acts initial))
    as [-> | [[v ->] | [[v ->] | [[d ->] | [(S & HS & Hne & ->)
        | (id & t & _ & Ht & Hd & ->)]]]]]; eauto.
Qed.

(** ** A second trigger without an edit *)

Lemma sendMessage_leaves_blank (st : State) :
  trim (userInput_value st) = [] ∨ userInput_value (sendMessage st) = [].
Proof.
  destruct (trim (userInput_value st)) as [|c r] eqn:Ht; [by left|].
  right. by rewrite (sendMessage_truthy st (c :: r) Ht).
Qed.

Lemma sendMessage_twice (st : State) :
  sendMessage (sendMessage st) = sendMessage st.
Proof.
  destruct (sendMessage_leaves_blank st) as [Ht | Hv].
  - by rewrite !(sendMessage_falsy st Ht).
  - apply sendMessage_falsy. by rewrite Hv.
Qed.

(** X1: [sendMessage] is idempotent.  A submission clears the input, so a
    second click or Enter that follows without an edit appends nothing and
    schedules nothing: a double click sends one message. *)
Theorem X1_second_trigger_is_noop (st : State) :
  sendMessage (sendMessage st) = sendMessage st
  ∧ run [clickSend; clickSend] st = run [clickSend] st
  ∧ run [pressEnter; pressEnter] st = run [pressEnter] st
  ∧ run [clickSend; pressEnter] st = run [clickSend] st
  ∧ run [pressEnter; clickSend] st = run [pressEnter] st.
Proof.
  cbn [run step clickSend pressEnter].
  repeat first [rewrite dispatch_click | rewrite dispatch_enter].
  by rewrite sendMessage_twice.
Qed.

(** ** What [trim] keeps *)

Lemma trimStart_head (s : jsstring) (c : N) :
  head (trimStart s) = Some c -> isWhiteSpace c = false.
Proof.
  induction s as [|x r IH]; cbn [trimStart]; [done|].
  destruct (isWhiteSpace x) eqn:Hx; [done|].
  cbn [head]. by intros [= <-].
Qed.

Lemma trimStart_fixed (s : jsstring) :
  (∀ c, head s = Some c -> isWhiteSpace c = false) -> trimStart s = s.
Proof.
  destruct s as [|x r]; [done|]. intros Hh. cbn [trimStart].
  by rewrite (Hh x eq_refl).
Qed.

Lemma trim_split (s : jsstring) :
  ∃ lead trail, s = lead ++ trim s ++ trail
    ∧ forallb isWhiteSpace lead = true ∧ forallb isWhiteSpace trail = true.
Proof.
  destruct (trimStart_suffix s) as (lead & Hs & Hlead).
  destruct (trimStart_suffix (rev (trimStart s))) as (k & Hk & Hws).
  exists lead, (rev k). split_and!; [|done|].
  - rewrite Hs at 1. f_equal. unfold trim, trimEnd.
    rewrite <- rev_app_distr, <- Hk. by rewrite rev_involutive.
  - rewrite forallb_forall in Hws. rewrite forallb_forall.
    intros x Hx%in_rev. by apply Hws.
Qed.

Lemma rev_as_reverse (s : jsstring) : rev s = reverse s.
Proof. unfold reverse. by rewrite <- rev_alt. Qed.

Lemma trim_last (s : jsstring) (c : N) :
  last (trim s) = Some c -> isWhiteSpace c = false.
Proof.
  unfold trim, trimEnd. rewrite rev_as_reverse, last_reverse.
  apply trimStart_head.
Qed.

Lemma trim_head (s : jsstring) (c : N) :
  head (trim s) = Some c -> isWhiteSpace c = false.
Proof.
  intros Hh. destruct (trim_split (trimStart s)) as (lead & trail & Hs & Hl & _).
  assert (Htt : trim (trimStart s) = trim s).
  { unfold trim. f_equal. apply trimStart_fixed, trimStart_head. }
  rewrite Htt in Hs. apply (trimStart_head s).
  destruct lead as [|x lead].
  - rewrite Hs. cbn [app]. destruct (trim s); [done|]. exact Hh.
  - rewrite Hs. cbn [app head]. f_equal.
    pose proof (trimStart_head s x) as Hx. rewrite Hs in Hx.
    cbn [forallb] in Hl. apply andb_prop in Hl as [Hl _].
    rewrite (Hx eq_refl) in Hl. done.
Qed.

Lemma trim_idempotent (s : jsstring) : trim (trim s) = trim s.
Proof.
  unfold trim at 1. rewrite (trimStart_fixed (trim s)) by apply trim_head.
  unfold trimEnd. rewrite (trimStart_fixed (rev (trim s))).
  - apply rev_involutive.
  - intros c. rewrite rev_as_reverse, head_reverse. apply trim_last.
Qed.

(** X2: [trim] removes white space at the two ends and nothing else: the
    input is its trimmed form between a run of white space before and a run
    after, the trimmed form neither begins nor ends with white space, and
    trimming again changes nothing.  So a user bubble keeps the inner
    spacing of what was typed. *)
Theorem X2_trim_strips_only_the_ends (s : jsstring) :
  (∃ lead trail, s = lead ++ trim s ++ trail
     ∧ forallb isWhiteSpace lead = true ∧ forallb isWhiteSpace trail = true)
  ∧ (∀ c, head (trim s) = Some c -> isWhiteSpace c = false)
  ∧ (∀ c, last (trim s) = Some c -> isWhiteSpace c = false)
  ∧ trim (trim s) = trim s.
Proof.
  split_and!.
  - apply trim_split.
  - apply trim_head.
  - apply trim_last.
  - apply trim_idempotent.
Qed.

(** ** The shape of the panel *)

Lemma panel_shape (st : State) :
  reachable st ->
  Forall bubble (chatWindow_children st)
  ∧ (∀ id t, timers st !! id = Some t -> sendable (userText t)).
Proof.
  revert st. apply reachable_invariant.
  - split; [apply Forall_nil_2 | 
             intros id t Ht; unfold initial in Ht; cbn [timers] in Ht;
             by rewrite lookup_empty in Ht].
  - intros st v _ HP. exact HP.
  - intros st v _ HP. exact HP.
  - intros st d _ HP. exact HP.
  - intros st S _ [Hkids Htm] HS Hne.
    assert (Hsend : sendable S).
    { split; [done|]. rewrite <- HS. apply trim_idempotent. }
    split; cbn [afterSubmit chatWindow_children timers].
    + apply Forall_app. split; [done|]. constructor; [|constructor].
      exists S. split; [done | by left].
    + intros id t [[_ <-] | [_ Ht]]%lookup_insert_Some; [done | by eapply Htm].
  - intros st id t _ [Hkids Htm] Ht Hd.
    split; cbn [afterReply chatWindow_children timers].
    + apply Forall_app. split; [done|]. constructor; [|constructor].
      exists (userText t). split; [by eapply Htm | by right].
    + intros id' t' [_ Ht']%lookup_delete_Some. by eapply Htm.
Qed.

(** X3: in every reachable state each child of the chat window is the user
    bubble or the reply bubble of a text that is not empty and has no white
    space at either end, and every pending timer holds such a text: no
    empty bubble and no bubble of another class is ever appended. *)
Theorem X3_only_bubbles_of_sendable_texts (st : State) :
  reachable st ->
  Forall bubble (chatWindow_children st)
  ∧ (∀ id t, timers st !! id = Some t -> sendable (userText t)).
Proof. apply panel_shape. Qed.

(** ** Questions, replies and pending timers *)

Lemma questions_accounted (st : State) :
  reachable st ->
  countRole user (chatWindow_children st)
  = (countRole assistant (chatWindow_children st) + size (timers st))%nat.
Proof.
  revert st. apply reachable_invariant.
  - cbn. by rewrite map_size_empty.
  - intros st v _ HP. exact HP.
  - intros st v _ HP. exact HP.
  - intros st d _ HP. exact HP.
  - intros st S Hr HP _ _. cbn [afterSubmit chatWindow_children timers].
    rewrite !countRole_app, map_size_insert_None
      by (apply (reachable_fresh st Hr); lia).
    change (countRole assistant [userMessageDiv S]) with 0%nat.
    change (countRole user [userMessageDiv S]) with 1%nat. lia.
  - intros st id t _ HP Ht _. cbn [afterReply chatWindow_children timers].
    rewrite !countRole_app, map_size_delete, Ht.
    change (countRole assistant [aiMessageDiv (userText t)]) with 1%nat.
    change (countRole user [aiMessageDiv (userText t)]) with 0%nat.
    assert (size (timers st) ≠ 0%nat).
    { intros Hz%map_size_empty_iff. by rewrite Hz, lookup_empty in Ht. }
    simpl. lia.
Qed.

(** X4: in every reachable state the number of user bubbles is the number
    of reply bubbles plus the number of pending timers: each question is
    either answered once or has its reply pending, none is dropped and none
    is answered twice. *)
Theorem X4_every_question_answered_or_pending (st : State) :
  reachable st ->
  countRole user (chatWindow_children st)
  = (countRole assistant (chatWindow_children st) + size (timers st))%nat.
Proof. apply questions_accounted. Qed.

Lemma userMessageDiv_not_ai (a b : jsstring) : userMessageDiv a ≠ aiMessageDiv b.
Proof. intros Heq. apply (f_equal role) in Heq. discriminate Heq. Qed.

Lemma aiMessageDiv_inj (a b : jsstring) : aiMessageDiv a = aiMessageDiv b -> a = b.
Proof.
  intros Heq. apply (f_equal innerHTML) in Heq.
  change (aiMarkup a = aiMarkup b) in Heq. unfold aiMarkup, aiReply in Heq.
  apply app_inv_head, app_inv_tail, app_inv_head, app_inv_head in Heq.
  by apply app_inv_tail in Heq.
Qed.

Lemma reply_follows_question (st : State) :
  reachable st ->
  (∀ j u, chatWindow_children st !! j = Some (aiMessageDiv u) ->
     ∃ i, (i < j)%nat ∧ chatWindow_children st !! i = Some (userMessageDiv u))
  ∧ (∀ id t, timers st !! id = Some t ->
       ∃ i, chatWindow_children st !! i = Some (userMessageDiv (userText t))).
Proof.
  revert st. apply reachable_invariant.
  - split; [intros j u Hj; unfold initial in Hj;
             cbn [chatWindow_children] in Hj; by rewrite lookup_nil in Hj
           | intros id t Ht; unfold initial in Ht; cbn [timers] in Ht;
             by rewrite lookup_empty in Ht].
  - intros st v _ HP. exact HP.
  - intros st v _ HP. exact HP.
  - intros st d _ HP. exact HP.
  - intros st S _ [Hai Htm] _ _.
    split; cbn [afterSubmit chatWindow_children timers].
    + intros j u [[_ Hj] | [_ Heq]]%lookup_snoc_Some.
      * destruct (Hai j u Hj) as (i & Hij & Hi). exists i.
        split; [done | by apply lookup_app_l_Some].
      * by apply userMessageDiv_not_ai in Heq.
    + intros id t [[_ <-] | [_ Ht]]%lookup_insert_Some.
      * exists (length (chatWindow_children st)). by apply list_lookup_middle.
      * destruct (Htm id t Ht) as (i & Hi). exists i.
        by apply lookup_app_l_Some.
  - intros st id t _ [Hai Htm] Ht _.
    split; cbn [afterReply chatWindow_children timers].
    + intros j u [[_ Hj] | [-> Heq]]%lookup_snoc_Some.
      * destruct (Hai j u Hj) as (i & Hij & Hi). exists i.
        split; [done | by apply lookup_app_l_Some].
      * apply aiMessageDiv_inj in Heq as <-.
        destruct (Htm id t Ht) as (i & Hi). exists i.
        split; [by eapply lookup_lt_Some | by apply lookup_app_l_Some].
    + intros id' t' [_ Ht']%lookup_delete_Some.
      destruct (Htm id' t' Ht') as (i & Hi). exists i.
      by apply lookup_app_l_Some.
Qed.

(** X5: in every reachable state a reply bubble quoting [u] stands after a
    user bubble with text [u], and the text held by a pending timer is the
    text of a user bubble already in the panel: a reply never precedes its
    question and never quotes a text that was not submitted. *)
Theorem X5_reply_follows_its_question (st : State) :
  reachable st ->
  (∀ j u, chatWindow_children st !! j = Some (aiMessageDiv u) ->
     ∃ i, (i < j)%nat ∧ chatWindow_children st !! i = Some (userMessageDiv u))
  ∧ (∀ id t, timers st !! id = Some t ->
       ∃ i, chatWindow_children st !! i = Some (userMessageDiv (userText t))).
Proof. apply reply_follows_question. Qed.

(** ** Pending timers stay *)

Lemma step_keeps_timer (a : Action) (id : N) (t : Timer) (st : State) :
  reachable st -> timers st !! id = Some t -> a ≠ Timeout id ->
  timers (step a st) !! id = Some t.
Proof.
  intros Hr Ht Hne.
  destruct (step_cases a st)
    as [-> | [[v ->] | [[v ->] | [[d ->] | [(S & _ & _ & ->)
        | (id' & t' & -> & _ & _ & ->)]]]]]; try done.
  - cbn [afterSubmit timers]. rewrite lookup_insert_ne; [done|].
    intros Heq. pose proof (reachable_fresh st Hr id) as Hfresh.
    rewrite Ht in Hfresh. rewrite Heq in Hfresh. by discriminate Hfresh.
  - cbn [afterReply timers]. rewrite lookup_delete_ne; [done|]. congruence.
Qed.

Lemma run_keeps_timer (acts : list Action) (id : N) (t : Timer) (st : State) :
  reachable st -> timers st !! id = Some t -> Timeout id ∉ acts ->
  timers (run acts st) !! id = Some t.
Proof.
  revert st. induction acts as [|a rest IH]; intros st Hr Ht Hacts; [done|].
  apply not_elem_of_cons in Hacts as [Ha Hrest]. cbn [run].
  apply IH; [by apply reachable_step | by apply step_keeps_timer | done].
Qed.

(** X6: nothing cancels or changes a pending reply.  Through any sequence
    of edits, events, scrolls, waits, submissions and runs of other timers,
    a timer that is pending stays pending with the same due time and the
    same captured text until it runs itself. *)
Theorem X6_pending_timer_is_never_cancelled (acts : list Action) (id : N)
    (t : Timer) (st : State) :
  reachable st -> timers st !! id = Some t -> Timeout id ∉ acts ->
  timers (run acts st) !! id = Some t.
Proof. apply run_keeps_timer. Qed.

(** ** Letting the pending timers run *)

Lemma pending_due_soon (st : State) :
  reachable st ->
  ∀ id t, timers st !! id = Some t -> due t <= now st + 1000.
Proof.
  revert st.
  apply (reachable_invariant
           (λ st, ∀ id t, timers st !! id = Some t -> due t <= now st + 1000)).
  - intros id t Ht. unfold initial in Ht. cbn [timers] in Ht.
    by rewrite lookup_empty in Ht.
  - intros st v _ HP. exact HP.
  - intros st v _ HP. exact HP.
  - intros st d _ HP id t Ht. cbn [advance now timers] in *.
    specialize (HP id t Ht). lia.
  - intros st S _ HP _ _ id t. cbn [afterSubmit now timers].
    intros [[_ <-] | [_ Ht]]%lookup_insert_Some; [done | by eapply HP].
  - intros st id t _ HP _ _ id' t'. cbn [afterReply now timers].
    intros [_ Ht']%lookup_delete_Some. by eapply HP.
Qed.

(** Running the due timers [ks] one after the other. *)
Lemma fire_all (ks : list N) (st : State) :
  NoDup ks ->
  (∀ k, k ∈ ks -> ∃ t, timers st !! k = Some t ∧ due t <= now st) ->
  let st' := run (map Timeout ks) st in
  (∀ i, timers st' !! i = if bool_decide (i ∈ ks) then None else timers st !! i)
  ∧ countRole assistant (chatWindow_children st')
    = (countRole assistant (chatWindow_children st) + length ks)%nat
  ∧ countRole user (chatWindow_children st')
    = countRole user (chatWindow_children st)
  ∧ userInput_value st' = userInput_value st.
Proof.
  revert st. induction ks as [|k ks IH]; intros st Hnd Hdue; cbn zeta.
  - cbn [map run length]. split_and!; [done | lia | done | done].
  - apply NoDup_cons in Hnd as [Hk Hnd].
    destruct (Hdue k) as (t & Ht & Hd); [by left|].
    cbn [map run step]. rewrite (fireTimer_due k t st Ht Hd).
    destruct (IH (afterReply k t st) Hnd) as (Htm & Hai & Huser & Hval).
    { intros k' Hk'. destruct (Hdue k') as (t' & Ht' & Hd'); [by right|].
      exists t'. cbn [afterReply timers now].
      rewrite lookup_delete_ne by (intros ->; done). done. }
    unfold afterReply in Htm, Hai, Huser, Hval.
    cbn [timers chatWindow_children userInput_value] in Htm, Hai, Huser, Hval.
    split_and!.
    + intros i. rewrite Htm. destruct (decide (i = k)) as [->|Hne].
      * rewrite lookup_delete_eq, (bool_decide_eq_true_2 (k ∈ k :: ks));
          [by case_bool_decide | by left].
      * rewrite lookup_delete_ne by done.
        case_bool_decide as Hin.
        -- by rewrite bool_decide_eq_true_2 by by right.
        -- rewrite bool_decide_eq_false_2; [done|].
           by intros [?|?]%elem_of_cons.
    + rewrite Hai, countRole_app.
      change (countRole assistant [aiMessageDiv (userText t)]) with 1%nat.
      cbn [length]. lia.
    + rewrite Huser, countRole_app.
      change (countRole user [aiMessageDiv (userText t)]) with 0%nat. lia.
    + done.
Qed.

Lemma drain_settles (st : State) :
  reachable st ->
  let st' := run (drain st) st in
  timers st' = ∅
  ∧ countRole assistant (chatWindow_children st')
    = countRole user (chatWindow_children st')
  ∧ countRole user (chatWindow_children st')
    = countRole user (chatWindow_children st)
  ∧ userInput_value st' = userInput_value st.
Proof.
  intros Hr. unfold drain. cbn [run step].
  destruct (fire_all (pendingHandles st) (advance 1000 st))
    as (Htm & Hai & Huser & Hval).
  { apply NoDup_fst_map_to_list. }
  { intros k [[k' t] [-> Hin]]%list_elem_of_fmap.
    apply elem_of_map_to_list in Hin. exists t. split; [done|].
    cbn [advance now]. by apply (pending_due_soon st Hr k'). }
  cbn zeta. split_and!.
  - apply map_eq. intros i. rewrite Htm, lookup_empty.
    case_bool_decide as Hin; [done|]. cbn [advance timers].
    destruct (timers st !! i) as [t|] eqn:Ht; [|done].
    destruct Hin. apply list_elem_of_fmap. exists (i, t).
    split; [done | by apply elem_of_map_to_list].
  - rewrite Hai, Huser. cbn [advance chatWindow_children].
    rewrite (questions_accounted st Hr). unfold pendingHandles.
    by rewrite length_fmap, length_map_to_list.
  - exact Huser.
  - exact Hval.
Qed.

(** X7: from every reachable state, a wait of 1000ms followed by the run of
    each pending timer leaves no timer pending and as many reply bubbles as
    user bubbles, without adding a user bubble or touching the input field:
    every pending timer is due within 1000ms and every question gets its
    reply. *)
Theorem X7_every_question_gets_its_reply (st : State) :
  reachable st ->
  (∀ id t, timers st !! id = Some t -> due t <= now st + 1000)
  ∧ let st' := run (drain st) st in
    timers st' = ∅
    ∧ countRole assistant (chatWindow_children st')
      = countRole user (chatWindow_children st')
    ∧ countRole user (chatWindow_children st')
      = countRole user (chatWindow_children st)
    ∧ userInput_value st' = userInput_value st.
Proof.
  intros Hr. split; [by apply pending_due_soon | by apply drain_settles].
Qed.

(** ** Text without markup *)

Lemma aiReply_plain (S : jsstring) :
  forallb plainChar S = true -> forallb plainChar (aiReply S) = true.
Proof.
  intros HS. unfold aiReply. rewrite !forallb_app, HS. reflexivity.
Qed.

(** X8: when the submitted text holds no [<], no [&], no NUL and no
    carriage return, the user bubble shows exactly that text and the reply
    bubble shows exactly the reply sentence around it. *)
Theorem X8_plain_text_is_shown_verbatim (S : jsstring) :
  forallb plainChar S = true ->
  textContent (userMessageDiv S) = Some S
  ∧ textContent (aiMessageDiv S) = Some (aiReply S).
Proof.
  intros HS. split.
  - by apply textContent_plain.
  - by apply textContent_plain, aiReply_plain.
Qed.

(** ** Pages that lack a node *)

Lemma sendMessageOn_found (pg : Page) (st : State) :
  found_userInput pg = true -> found_chatWindow pg = true ->
  sendMessageOn pg st = Returned (sendMessage st).
Proof.
  intros Hi Hc. unfold sendMessageOn, sendMessage. rewrite Hi, Hc.
  by destruct (truthy (trim (userInput_value st))).
Qed.

Lemma sendMessageOn_outcome (pg : Page) (st : State) :
  found_userInput pg && found_chatWindow pg = false ->
  outcome (sendMessageOn pg st) = st.
Proof.
  unfold sendMessageOn.
  destruct (found_userInput pg), (found_chatWindow pg); try done.
  intros _. by destruct (truthy (trim (userInput_value st))).
Qed.

(** Which deliveries run [sendMessageOn]. *)
Lemma deliverOn_spec (pg : Page) (t : Target) (e : Event) (st : State) :
  deliverOn pg t e st =
    if found_sendBtn pg
       && ((bool_decide (t = sendBtn) && bool_decide (ev_type e = lit "click"))
           || (found_userInput pg
               && bool_decide (t = userInput)
               && bool_decide (ev_type e = lit "keypress")
               && bool_decide (ev_key e = Some (lit "Enter"))))
    then sendMessageOn pg st else Returned st.
Proof.
  unfold deliverOn, domContentLoaded.
  destruct (found_sendBtn pg); [|done].
  destruct (found_userInput pg);
    cbn [outcome fold_left pl_target pl_type pl_handler andb orb];
    unfold onKeypressOn;
    destruct t; repeat (case_bool_decide; try done; cbn [andb orb]);
    repeat (case_decide; try done); congruence.
Qed.

(** X9: on a page that has the send button, the input and the chat window,
    the [DOMContentLoaded] handler returns with both listeners registered,
    no handler ever throws, and every delivery does what [dispatchEvent]
    does; [sendMessageOn] is [sendMessage] as soon as the input and the
    chat window exist. *)
Theorem X9_full_page_never_throws (t : Target) (e : Event) (st : State) :
  (∃ onClick onKey, domContentLoaded fullPage = Returned [onClick; onKey]
     ∧ pl_target onClick = sendBtn ∧ pl_type onClick = lit "click"
     ∧ pl_target onKey = userInput ∧ pl_type onKey = lit "keypress")
  ∧ deliverOn fullPage t e st = Returned (dispatchEvent t e st)
  ∧ (∀ pg, found_userInput pg = true -> found_chatWindow pg = true ->
       sendMessageOn pg st = Returned (sendMessage st)).
Proof.
  split_and!.
  - by eexists _, _.
  - rewrite deliverOn_spec, dispatchEvent_spec.
    cbn [fullPage found_sendBtn found_userInput andb].
    case_match; [by apply sendMessageOn_found | done].
  - intros pg. apply sendMessageOn_found.
Qed.

(** X10: on a page that lacks the send button the first [addEventListener]
    throws, so no listener at all is registered and no event does anything,
    Enter in the input field included.  On a page that lacks any of the
    three nodes no delivery changes the state: nothing is appended, the
    input keeps its text and no timer is scheduled. *)
Theorem X10_incomplete_page_is_inert (pg : Page) (t : Target) (e : Event)
    (st : State) :
  (found_sendBtn pg = false ->
     domContentLoaded pg = Threw [] ∧ deliverOn pg t e st = Returned st)
  ∧ (found_sendBtn pg = true -> found_userInput pg = false ->
       ∃ onClick, domContentLoaded pg = Threw [onClick]
                  ∧ pl_target onClick = sendBtn)
  ∧ (pg ≠ fullPage -> outcome (deliverOn pg t e st) = st).
Proof.
  split_and!.
  - intros Hb. rewrite deliverOn_spec. unfold domContentLoaded. by rewrite Hb.
  - intros Hb Hi. unfold domContentLoaded. rewrite Hb, Hi. by eexists.
  - intros Hpg. rewrite deliverOn_spec. case_match; [|done].
    apply sendMessageOn_outcome.
    destruct pg as [[] [] []]; try done.
Qed.

(** X11: on a page with the button and the input but without the chat
    window, a click or Enter with a non-blank input throws a [TypeError] at
    [appendChild] and leaves everything as it was, the text still in the
    input field; with a blank input the handler returns without error.  On a
    page with the button but without the input every click throws. *)
Theorem X11_missing_node_throws (pg : Page) (st : State) :
  found_sendBtn pg = true ->
  (found_userInput pg = true -> found_chatWindow pg = false ->
     (trim (userInput_value st) ≠ [] ->
        deliverOn pg sendBtn clickEvent st = Threw st
        ∧ deliverOn pg userInput (keyEvent (lit "keypress") (lit "Enter")) st
          = Threw st)
     ∧ (trim (userInput_value st) = [] ->
        deliverOn pg sendBtn clickEvent st = Returned st))
  ∧ (found_userInput pg = false ->
       deliverOn pg sendBtn clickEvent st = Threw st).
Proof.
  intros Hb. split.
  - intros Hi Hc. rewrite !deliverOn_spec, Hb, Hi.
    cbn -[sendMessageOn trim]. unfold sendMessageOn. rewrite Hi, Hc.
    split.
    + intros Hne. destruct (trim (userInput_value st)); done.
    + by intros ->.
  - intros Hi. rewrite deliverOn_spec, Hb, Hi.
    cbn -[sendMessageOn]. unfold sendMessageOn. by rewrite Hi.
Qed.

(** ** Replies in the order of the questions *)

Lemma oldest_le (id k : N) (t : Timer) (st : State) :
  oldest id st = true -> timers st !! k = Some t -> id <= k.
Proof.
  unfold oldest, pendingHandles. rewrite forallb_forall. intros Hall Hk.
  apply N.leb_le, Hall, list_elem_of_In, list_elem_of_fmap.
  exists (k, t). split; [done | by apply elem_of_map_to_list].
Qed.

Lemma queued_submit (S : jsstring) (st : State) (us : list jsstring) (n : nat) :
  queued st us n -> queued (afterSubmit S st) (us ++ [S]) n.
Proof.
  intros (Hn & Hus & Hai & pend & Htm & Hsort & Hlt & Htxt).
  unfold queued. cbn [afterSubmit chatWindow_children timers next_timer_id].
  split_and!.
  - rewrite length_app. lia.
  - unfold bubblesOf in *. rewrite filter_app, Hus, fmap_app. done.
  - unfold bubblesOf in *. rewrite filter_app, Hai, take_app_le by done.
    change (filter _ [userMessageDiv S]) with (@nil Element).
    by rewrite app_nil_r.
  - exists (pend ++ [(next_timer_id st, mkTimer (now st + 1000) S)]).
    split_and!.
    + rewrite list_to_map_snoc, Htm; [done|].
      intros Hin. rewrite Forall_forall in Hlt. specialize (Hlt _ Hin).
      cbn beta in Hlt. lia.
    + rewrite fmap_app. apply StronglySorted_app. split_and!; [|done|].
      * intros k1 k2 Hk1 ->%list_elem_of_singleton.
        rewrite Forall_forall in Hlt. by apply Hlt.
      * repeat constructor.
    + rewrite fmap_app. apply Forall_app. split.
      * eapply Forall_impl; [exact Hlt|]. intros k Hk. cbn beta in *. lia.
      * repeat constructor. cbn [fst]. lia.
    + rewrite !fmap_app, Htxt, drop_app_le by done. done.
Qed.

Lemma queued_reply (id : N) (t : Timer) (st : State) (us : list jsstring)
    (n : nat) :
  queued st us n -> timers st !! id = Some t -> oldest id st = true ->
  queued (afterReply id t st) us (S n).
Proof.
  intros (Hn & Hus & Hai & pend & Htm & Hsort & Hlt & Htxt) Ht Hold.
  destruct pend as [|[k0 t0] rest].
  { rewrite Htm in Ht. cbn in Ht. by rewrite lookup_empty in Ht. }
  cbn [fmap list_fmap fst snd] in Hsort, Hlt, Htxt.
  apply StronglySorted_cons in Hsort as [Hhead Hsort].
  apply Forall_cons in Hlt as [_ Hlt].
  assert (Hk0 : timers st !! k0 = Some t0).
  { rewrite Htm, list_to_map_cons. apply lookup_insert_eq. }
  assert (Hnotin : k0 ∉ rest.*1).
  { intros Hin. rewrite Forall_forall in Hhead. specialize (Hhead _ Hin).
    cbn beta in Hhead. lia. }
  assert (Hid : id = k0).
  { pose proof (oldest_le id k0 t0 st Hold Hk0) as Hle.
    rewrite Htm, list_to_map_cons in Ht.
    apply lookup_insert_Some in Ht as [[-> _] | [_ Ht]]; [done|].
    apply elem_of_list_to_map_2 in Ht.
    assert (Hin : id ∈ rest.*1) by (apply list_elem_of_fmap; by exists (id, t)).
    rewrite Forall_forall in Hhead. specialize (Hhead _ Hin).
    cbn beta in Hhead. lia. }
  subst id. rewrite Hk0 in Ht. injection Ht as <-.
  assert (Hnth : us !! n = Some (userText t0)).
  { rewrite <- (Nat.add_0_r n), <- lookup_drop, <- Htxt. done. }
  unfold queued. cbn [afterReply chatWindow_children timers next_timer_id].
  split_and!.
  - by apply lookup_lt_Some in Hnth.
  - unfold bubblesOf in *. rewrite filter_app, Hus.
    change (filter _ [aiMessageDiv (userText t0)]) with (@nil Element).
    by rewrite app_nil_r.
  - unfold bubblesOf in *.
    rewrite filter_app, Hai, (take_S_r us n _ Hnth), fmap_app. done.
  - exists rest. split_and!; [|done..|].
    + rewrite Htm, list_to_map_cons, delete_insert_eq.
      by apply delete_id, not_elem_of_list_to_map_1.
    + rewrite (drop_S us _ n Hnth) in Htxt. by injection Htxt.
Qed.

Lemma queued_step (a : Action) (st : State) (us : list jsstring) (n : nat) :
  queued st us n ->
  match a with Timeout id => oldest id st | _ => true end = true ->
  ∃ us' n', queued (step a st) us' n'.
Proof.
  intros Hq Hold.
  destruct (step_cases a st)
    as [-> | [[v ->] | [[v ->] | [[d ->] | [(S & _ & _ & ->)
        | (id & t & -> & Ht & _ & ->)]]]]].
  - by exists us, n.
  - exists us, n. exact Hq.
  - exists us, n. exact Hq.
  - exists us, n. exact Hq.
  - exists (us ++ [S]), n. by apply queued_submit.
  - exists us, (Datatypes.S n). by apply queued_reply.
Qed.

Lemma queued_run (acts : list Action) (st : State) (us : list jsstring)
    (n : nat) :
  queued st us n -> oldestFirst acts st = true ->
  ∃ us' n', queued (run acts st) us' n'.
Proof.
  revert st us n. induction acts as [|a rest IH]; intros st us n Hq Hacts.
  - by exists us, n.
  - cbn [oldestFirst] in Hacts. apply andb_prop in Hacts as [Ha Hrest].
    destruct (queued_step a st us n Hq Ha) as (us' & n' & Hq').
    cbn [run]. by apply (IH _ us' n').
Qed.

Lemma queued_initial : queued initial [] 0.
Proof.
  unfold queued. split_and!; [done..|].
  exists []. split_and!; [done | constructor | constructor | done].
Qed.

(** X12: when the timers run oldest first, as browsers run timers of one
    delay, the replies appear in the order of the questions: the user
    bubbles, in panel order, carry some texts [us], the reply bubbles, in
    panel order, quote the first [n] of them in the same order, and the
    pending timers hold the remaining ones. *)
Theorem X12_replies_in_question_order (acts : list Action) :
  oldestFirst acts initial = true ->
  ∃ us n, queued (run acts initial) us n.
Proof. intros Hacts. by apply (queued_run acts initial [] 0%nat queued_initial). Qed.

(** ** Replies are never early *)

Lemma step_now_mono (a : Action) (st : State) : now st <= now (step a st).
Proof.
  destruct (step_cases a st)
    as [-> | [[v ->] | [[v ->] | [[d ->] | [(S & _ & _ & ->)
        | (id & t & _ & _ & _ & ->)]]]]];
    unfold set_value, set_scrollTop, advance, afterSubmit, afterReply;
    cbn [now]; lia.
Qed.

Lemma run_now_mono (acts : list Action) (st : State) :
  now st <= now (run acts st).
Proof.
  revert st. induction acts as [|a rest IH]; intros st; cbn [run]; [lia|].
  pose proof (step_now_mono a st). pose proof (IH (step a st)). lia.
Qed.

Lemma timer_gone_was_due (acts : list Action) (id : N) (t : Timer)
    (st : State) :
  reachable st -> timers st !! id = Some t ->
  timers (run acts st) !! id = None -> due t <= now (run acts st).
Proof.
  revert st. induction acts as [|a rest IH]; intros st Hr Ht Hgone.
  - cbn [run] in Hgone. by rewrite Ht in Hgone.
  - cbn [run] in *.
    assert (Hcases : timers (step a st) !! id = Some t ∨ due t <= now st).
    { destruct a as [v|tg e|v|d|id'];
        try (left; by apply step_keeps_timer).
      destruct (decide (id' = id)) as [->|Hne].
      - cbn [step]. destruct (fireTimer_cases id st) as [-> | (t' & Ht' & Hd)].
        + by left.
        + right. rewrite Ht in Ht'. by injection Ht' as <-.
      - left. apply step_keeps_timer; [done..|]. congruence. }
    destruct Hcases as [Hkeep | Hdue].
    + apply (IH (step a st)); [by apply reachable_step | done..].
    + pose proof (step_now_mono a st). pose proof (run_now_mono rest (step a st)).
      lia.
Qed.

(** X13: a reply is never early.  When a timer that was pending is no
    longer pending after a sequence of actions, the clock has reached its
    due time; the clock itself never runs backwards. *)
Theorem X13_reply_never_early (acts : list Action) (id : N) (t : Timer)
    (st : State) :
  reachable st -> timers st !! id = Some t ->
  timers (run acts st) !! id = None ->
  due t <= now (run acts st) ∧ now st <= now (run acts st).
Proof.
  intros Hr Ht Hgone. split;
    [by apply (timer_gone_was_due acts id t st) | apply run_now_mono].
Qed.

End Properties.

(** * The scenarios on a concrete page *)

Section Examples.
#[local] Existing Instance demoLayout.

(** Input hello: one user bubble, and after 1000ms one reply bubble. *)
Lemma C1_hello :
  trim (lit "hello") = lit "hello"
  ∧ lit "hello" ≠ []
  ∧ chatWindow_children
      (fireTimer 1 (advance 1000 (sendMessage (set_value (lit "hello") initial))))
    = [userMessageDiv (lit "hello"); aiMessageDiv (lit "hello")].
Proof.
  pose proof (C1_submit_user_then_reply (set_value (lit "hello") initial)
                (lit "hello") eq_refl ltac:(discriminate)) as HC.
  cbv zeta in HC. destruct HC as (_ & _ & _ & _ & _ & Hfire & _).
  split_and!; [reflexivity | discriminate |].
  apply (Hfire 1000). lia.
Defined.

(** Input of three spaces: nothing happens. *)
Lemma C2_spaces :
  forallb isWhiteSpace (lit "   ") = true
  ∧ sendMessage (set_value (lit "   ") initial) = set_value (lit "   ") initial.
Proof.
  pose proof (C2_blank_input_noop (set_value (lit "   ") initial)
                (or_intror eq_refl)) as HC.
  destruct HC as (_ & _ & Hsend & _).
  split; [reflexivity | exact Hsend].
Defined.

(** Submitting a then b within 10ms: each reply quotes its own text, in the
    order in which a browser runs the two timers and in the other one. *)
Lemma C3_a_then_b :
  trim (lit "a") = lit "a" ∧ trim (lit "b ") = lit "b"
  ∧ className
    <$> chatWindow_children
          (run [Timeout 1; Timeout 2]
             (run ([Edit (lit "a"); clickSend] ++ [Wait 10]
                   ++ [Edit (lit "b "); pressEnter] ++ [Wait 1000]) initial))
    = [lit "message user-message"; lit "message user-message";
       lit "message ai-message"; lit "message ai-message"]
  ∧ innerHTML
    <$> chatWindow_children
          (run [Timeout 1; Timeout 2]
             (run ([Edit (lit "a"); clickSend] ++ [Wait 10]
                   ++ [Edit (lit "b "); pressEnter] ++ [Wait 1000]) initial))
    = [span_open ++ lit "a" ++ span_close;
       span_open ++ lit "b" ++ span_close;
       span_open ++ lit "This is a simulated AI response to " ++ [dquote]
       ++ lit "a" ++ [dquote] ++ lit "." ++ span_close;
       span_open ++ lit "This is a simulated AI response to " ++ [dquote]
       ++ lit "b" ++ [dquote] ++ lit "." ++ span_close]
  ∧ innerHTML
    <$> chatWindow_children
          (run [Timeout 2; Timeout 1]
             (run ([Edit (lit "a"); clickSend] ++ [Wait 10]
                   ++ [Edit (lit "b "); pressEnter] ++ [Wait 1000]) initial))
    = [span_open ++ lit "a" ++ span_close;
       span_open ++ lit "b" ++ span_close;
       span_open ++ lit "This is a simulated AI response to " ++ [dquote]
       ++ lit "b" ++ [dquote] ++ lit "." ++ span_close;
       span_open ++ lit "This is a simulated AI response to " ++ [dquote]
       ++ lit "a" ++ [dquote] ++ lit "." ++ span_close].
Proof.
  pose proof (C3_overlapping_submissions initial (lit "a") (lit "b ")
                (lit "a") (lit "b") clickSend pressEnter 10 1000
                (or_introl eq_refl) (or_intror eq_refl)
                eq_refl ltac:(discriminate) eq_refl ltac:(discriminate)
                ltac:(lia)) as HC.
  cbv zeta in HC. destruct HC as (_ & _ & _ & Hab & Hba & _).
  split_and!; [reflexivity | reflexivity | | |].
  - exact (f_equal (fmap className) Hab).
  - exact (f_equal (fmap innerHTML) Hab).
  - exact (f_equal (fmap innerHTML) Hba).
Defined.

(** After a submission of hello the input is empty and the panel is at the
    bottom. *)
Lemma C6_hello :
  trim (lit "hello") = lit "hello"
  ∧ userInput_value (sendMessage (set_value (lit "hello") initial)) = []
  ∧ chatWindow_scrollTop (sendMessage (set_value (lit "hello") initial))
    = maxScrollTop (sendMessage (set_value (lit "hello") initial)).
Proof.
  pose proof (C6_clear_and_scroll (set_value (lit "hello") initial)
                (lit "hello") eq_refl ltac:(discriminate)) as HC.
  cbv zeta in HC. destruct HC as (Hval & Hscroll & _).
  split_and!; [reflexivity | exact Hval | exact Hscroll].
Defined.

(** Submitting hi twice gives four bubbles: two of the user class holding
    hi, two of the assistant class holding the reply to hi. *)
Lemma C7_hi_hi :
  trim (lit "hi") = lit "hi"
  ∧ className
    <$> chatWindow_children
          (run ([Edit (lit "hi"); clickSend] ++ [Wait 300]
                ++ [Edit (lit "hi"); clickSend] ++ [Wait 1000]
                ++ [Timeout 1; Timeout 2]) initial)
    = [lit "message user-message"; lit "message user-message";
       lit "message ai-message"; lit "message ai-message"]
  ∧ innerHTML
    <$> chatWindow_children
          (run ([Edit (lit "hi"); clickSend] ++ [Wait 300]
                ++ [Edit (lit "hi"); clickSend] ++ [Wait 1000]
                ++ [Timeout 1; Timeout 2]) initial)
    = [span_open ++ lit "hi" ++ span_close;
       span_open ++ lit "hi" ++ span_close;
       span_open ++ lit "This is a simulated AI response to " ++ [dquote]
       ++ lit "hi" ++ [dquote] ++ lit "." ++ span_close;
       span_open ++ lit "This is a simulated AI response to " ++ [dquote]
       ++ lit "hi" ++ [dquote] ++ lit "." ++ span_close].
Proof.
  pose proof (C7_same_text_twice initial (lit "hi") (lit "hi") 300 1000
                eq_refl ltac:(discriminate) ltac:(lia)) as HC.
  cbv zeta in HC. destruct HC as (Hearly & _).
  split_and!; [reflexivity | |].
  - exact (f_equal (fmap className) Hearly).
  - exact (f_equal (fmap innerHTML) Hearly).
Defined.

(** A page with one question asked and not yet answered. *)
Lemma C8_one_pending :
  reachable (run [Edit (lit "a"); clickSend] initial)
  ∧ (countRole assistant (chatWindow_children (run [Edit (lit "a"); clickSend] initial))
     ≤ countRole user (chatWindow_children (run [Edit (lit "a"); clickSend] initial)))%nat.
Proof.
  assert (Hr : reachable (run [Edit (lit "a"); clickSend] initial))
    by (by exists [Edit (lit "a"); clickSend]).
  split; [exact Hr | exact (C8_replies_at_most_questions _ Hr)].
Defined.

(** The same question asked on two pages that differ in clock and scroll
    offset. *)
Lemma C10_two_pages :
  let st1 := run [Edit (lit "hi")] initial in
  let st2 := run [Wait 5; Scroll 3; Edit (lit "hi")] initial in
  reachable st1 ∧ reachable st2
  ∧ chatWindow_children
      (run [clickSend; Wait 1000; Timeout (next_timer_id st1)] st1)
    = chatWindow_children
        (run [clickSend; Wait 2500; Timeout (next_timer_id st2)] st2).
Proof.
  intros st1 st2.
  assert (Hr1 : reachable st1) by (by exists [Edit (lit "hi")]).
  assert (Hr2 : reachable st2) by (by exists [Wait 5; Scroll 3; Edit (lit "hi")]).
  pose proof (C10_submit_deterministic st1 st2 1000 2500 Hr1 Hr2 eq_refl eq_refl
                ltac:(lia) ltac:(lia)) as HC.
  cbv zeta in HC. destruct HC as (Hkids & _).
  split_and!; [exact Hr1 | exact Hr2 | exact Hkids].
Defined.

(** C4 as stated fails: a keydown event with key Enter delivered to the
    input field holding the text a leaves the page as it is, while
    [sendMessage] would append a bubble; only keypress is listened for. *)
Lemma C4_keydown_enter_unheard :
  let st := run [Edit (lit "a")] initial in
  dispatchEvent userInput (keyEvent (lit "keydown") (lit "Enter")) st = st
  ∧ chatWindow_children
      (dispatchEvent userInput (keyEvent (lit "keydown") (lit "Enter")) st) = []
  ∧ chatWindow_children (sendMessage st) = [userMessageDiv (lit "a")]
  ∧ dispatchEvent userInput (keyEvent (lit "keydown") (lit "Enter")) st
    ≠ sendMessage st.
Proof.
  intros st. split_and!; [reflexivity | reflexivity | reflexivity |].
  intros Heq. apply (f_equal chatWindow_children) in Heq. discriminate Heq.
Qed.

(** * The further properties on concrete pages *)

Lemma reachable_oneQuestion : reachable oneQuestion.
Proof. by exists [Edit (lit "a"); clickSend]. Defined.

Lemma reachable_twoQuestions : reachable twoQuestions.
Proof.
  by exists [Edit (lit "a"); clickSend; Edit (lit " b"); pressEnter; Wait 1000;
             Timeout 1].
Defined.

(** Two questions asked: every child is a bubble of a sendable text. *)
Lemma X3_two_questions :
  reachable twoQuestions ∧ Forall bubble (chatWindow_children twoQuestions).
Proof.
  split; [exact reachable_twoQuestions|].
  exact (proj1 (X3_only_bubbles_of_sendable_texts twoQuestions
                  reachable_twoQuestions)).
Defined.

(** Two questions, one reply, one timer pending. *)
Lemma X4_two_questions :
  reachable twoQuestions
  ∧ countRole user (chatWindow_children twoQuestions)
    = (countRole assistant (chatWindow_children twoQuestions)
       + size (timers twoQuestions))%nat.
Proof.
  split; [exact reachable_twoQuestions|].
  exact (X4_every_question_answered_or_pending twoQuestions
           reachable_twoQuestions).
Defined.

(** The reply to a, third in the panel, stands after the question a. *)
Lemma X5_two_questions :
  chatWindow_children twoQuestions !! 2%nat = Some (aiMessageDiv (lit "a"))
  ∧ ∃ i, (i < 2)%nat
         ∧ chatWindow_children twoQuestions !! i = Some (userMessageDiv (lit "a")).
Proof.
  split; [reflexivity|].
  exact (proj1 (X5_reply_follows_its_question twoQuestions
                  reachable_twoQuestions) 2%nat (lit "a") eq_refl).
Defined.

(** The reply to a stays pending while b is asked and answered. *)
Lemma X6_one_question :
  timers oneQuestion !! 1 = Some (mkTimer 1000 (lit "a"))
  ∧ timers (run [Edit (lit "b"); clickSend; Wait 5000; Timeout 2; Scroll 7]
              oneQuestion) !! 1
    = Some (mkTimer 1000 (lit "a")).
Proof.
  assert (Hpending : timers oneQuestion !! 1 = Some (mkTimer 1000 (lit "a")))
    by apply lookup_insert_eq.
  split; [exact Hpending|].
  apply (X6_pending_timer_is_never_cancelled _ 1 _ oneQuestion
           reachable_oneQuestion Hpending).
  intros Hin. repeat (apply elem_of_cons in Hin as [Hin|Hin]; [discriminate Hin|]).
  by apply elem_of_nil in Hin.
Defined.

(** Draining the page with one reply pending. *)
Lemma X7_two_questions :
  reachable twoQuestions
  ∧ timers (run (drain twoQuestions) twoQuestions) = ∅.
Proof.
  split; [exact reachable_twoQuestions|].
  exact (proj1 (proj2 (X7_every_question_gets_its_reply twoQuestions
                         reachable_twoQuestions))).
Defined.

(** The text hello is shown as typed. *)
Lemma X8_hello :
  forallb plainChar (lit "hello") = true
  ∧ textContent (userMessageDiv (lit "hello")) = Some (lit "hello").
Proof.
  split; [reflexivity|].
  exact (proj1 (X8_plain_text_is_shown_verbatim (lit "hello") eq_refl)).
Defined.

(** A click on a page without chat window, the input holding hi. *)
Lemma X11_no_chat_window :
  found_sendBtn noChatWindow = true
  ∧ deliverOn noChatWindow sendBtn clickEvent (set_value (lit "hi") initial)
    = Threw (set_value (lit "hi") initial).
Proof.
  split; [reflexivity|].
  pose proof (X11_missing_node_throws noChatWindow
                (set_value (lit "hi") initial) eq_refl) as [Hno _].
  destruct (Hno eq_refl eq_refl) as [Hthrow _].
  apply Hthrow. discriminate.
Defined.

(** Two questions answered oldest first. *)
Lemma X12_a_then_b :
  oldestFirst
    [Edit (lit "a"); clickSend; Edit (lit "b"); clickSend; Wait 1000;
     Timeout 1; Timeout 2] initial = true
  ∧ ∃ us n,
      queued (run [Edit (lit "a"); clickSend; Edit (lit "b"); clickSend;
                   Wait 1000; Timeout 1; Timeout 2] initial) us n.
Proof.
  assert (Hfifo : oldestFirst
    [Edit (lit "a"); clickSend; Edit (lit "b"); clickSend; Wait 1000;
     Timeout 1; Timeout 2] initial = true) by (vm_compute; reflexivity).
  split; [exact Hfifo|].
  exact (X12_replies_in_question_order _ Hfifo).
Defined.

(** The reply to a has run: the clock is past 1000. *)
Lemma X13_one_question :
  timers oneQuestion !! 1 = Some (mkTimer 1000 (lit "a"))
  ∧ timers (run [Wait 1200; Timeout 1] oneQuestion) !! 1 = None
  ∧ 1000 <= now (run [Wait 1200; Timeout 1] oneQuestion).
Proof.
  assert (Hpending : timers oneQuestion !! 1 = Some (mkTimer 1000 (lit "a")))
    by apply lookup_insert_eq.
  assert (Hgone : timers (run [Wait 1200; Timeout 1] oneQuestion) !! 1 = None)
    by apply lookup_delete_eq.
  split_and!; [exact Hpending | exact Hgone |].
  exact (proj1 (X13_reply_never_early _ 1 _ oneQuestion reachable_oneQuestion
                  Hpending Hgone)).
Defined.

End Examples.
